(** * goapi: the TSSC adaptive symbol coder, the Guid hash set and DataRow reads

    A shallow embedding of
    - [sttp/transport/tssc/TsscPointMetadata.go] (module [Tssc]),
    - the generated [guid.HashSet] (module [GuidSet]),
    - [metadata.DataRow] (module [Metadata]),
    followed by the properties established about them. *)

From Stdlib Require Import ZArith Lia.
From stdpp Require Import base list gmap strings.

Local Open Scope Z_scope.

(** ** Machine integers and panics *)

Module Tssc.

(** Go's [int32] arithmetic wraps around; [byte] arithmetic is modulo 256. *)
Definition wrap_int32 (x : Z) : Z := (x + 2147483648) mod 4294967296 - 2147483648.
Definition wrap_byte (x : Z) : Z := x mod 256.
Definition MaxInt32 : Z := 2147483647.

(** The ways a call can abort: the four [panic(...)] calls of the source, the
    Go runtime's index and nil-function panics, and the bit stream running dry. *)
Inductive panic : Set :=
| CodingError
| UnsupportedCompressionMode
| SubscriberCodingError
| PublisherCodingError
| IndexOutOfRange
| NilFunction
| BufferExhausted.

Inductive result (A : Type) : Type :=
| Ok (a : A)
| Panic (p : panic).
Arguments Ok {A} a.
Arguments Panic {A} p.

(** [result] is a monad; stdpp's [x ← c; k] notation sequences calls and
    propagates the first panic. *)
#[global] Instance result_ret : MRet result := λ A a, Ok a.
#[global] Instance result_bind : MBind result := λ A B k c,
  match c with
  | Ok a => k a
  | Panic p => Panic p
  end.

(** ** The symbol alphabet *)

Module codeWords.
Definition EndOfStream : Z := 0.
Definition PointIDXOR4 : Z := 1.
Definition PointIDXOR8 : Z := 2.
Definition PointIDXOR12 : Z := 3.
Definition PointIDXOR16 : Z := 4.
Definition PointIDXOR20 : Z := 5.
Definition PointIDXOR24 : Z := 6.
Definition PointIDXOR32 : Z := 7.
Definition TimeDelta1Forward : Z := 8.
Definition TimeDelta2Forward : Z := 9.
Definition TimeDelta3Forward : Z := 10.
Definition TimeDelta4Forward : Z := 11.
Definition TimeDelta1Reverse : Z := 12.
Definition TimeDelta2Reverse : Z := 13.
Definition TimeDelta3Reverse : Z := 14.
Definition TimeDelta4Reverse : Z := 15.
Definition Timestamp2 : Z := 16.
Definition TimeXOR7Bit : Z := 17.
Definition StateFlags2 : Z := 18.
Definition StateFlags7Bit32 : Z := 19.
Definition Value1 : Z := 20.
Definition Value2 : Z := 21.
Definition Value3 : Z := 22.
Definition ValueZero : Z := 23.
Definition ValueXOR4 : Z := 24.
Definition ValueXOR8 : Z := 25.
Definition ValueXOR12 : Z := 26.
Definition ValueXOR16 : Z := 27.
Definition ValueXOR20 : Z := 28.
Definition ValueXOR24 : Z := 29.
Definition ValueXOR28 : Z := 30.
Definition ValueXOR32 : Z := 31.
End codeWords.

(** ** The bit stream *)

(** The stream is a queue of bits: writers append at the back, readers take
    from the front. *)
Abbreviation BitStream := (list bool).

(** The three function-valued fields of [pointMetadata]; [None] is Go's [nil]. *)
Abbreviation writeBitsFn := (Z → Z → BitStream → result BitStream).
Abbreviation readFn := (BitStream → result (Z * BitStream)).

(** The [n] low bits of [value], most significant first. *)
Fixpoint bits_msb (n : nat) (value : Z) : list bool :=
  match n with
  | O => []
  | S k => Z.testbit value (Z.of_nat k) :: bits_msb k value
  end.

(** The integer spelled by a run of bits, most significant first. *)
Definition bits_value (l : list bool) : Z :=
  fold_left (λ acc b, 2 * acc + Z.b2z b) l 0.

(** Modelled from the spec: the BitStream's [writeBits] is not among the
    sources. Section 4.1: "append the low n bits of value to the stream. Bits
    enter the stream most-significant-first". The buffer is taken unbounded. *)
Definition bs_writeBits (value n : Z) (bs : BitStream) : result BitStream :=
  Ok (bs ++ bits_msb (Z.to_nat n) value).

(** Modelled from the spec: the BitStream's [readBit] is not among the
    sources. Section 4.1: "return the next single bit (0/1)"; reading past the
    written length fails. *)
Definition bs_readBit (bs : BitStream) : result (Z * BitStream) :=
  match bs with
  | [] => Panic BufferExhausted
  | b :: bs' => Ok (Z.b2z b, bs')
  end.

(** Modelled from the spec: the BitStream's [readBits5] is not among the
    sources. Section 4.1: "return the next 5 bits as an integer in 0..31". *)
Definition bs_readBits5 (bs : BitStream) : result (Z * BitStream) :=
  if (length bs <? 5)%nat then Panic BufferExhausted
  else Ok (bits_value (take 5 bs), drop 5 bs).

(** ** pointMetadata *)

Record pointMetadata : Type := mkPointMetadata {
  PrevNextPointID1 : Z;
  PrevStateFlags1 : Z;
  PrevStateFlags2 : Z;
  PrevValue1 : Z;
  PrevValue2 : Z;
  PrevValue3 : Z;
  commandStats : list Z;
  commandsSentSinceLastChange : Z;
  mode : Z;
  mode21 : Z;
  mode31 : Z;
  mode301 : Z;
  mode41 : Z;
  mode401 : Z;
  mode4001 : Z;
  startupMode : Z;
  writeBits : option writeBitsFn;
  readBit : option readFn;
  readBits5 : option readFn
}.

Definition set_commandStats (v : list Z) (pm : pointMetadata) : pointMetadata :=
  mkPointMetadata (PrevNextPointID1 pm) (PrevStateFlags1 pm) (PrevStateFlags2 pm)
    (PrevValue1 pm) (PrevValue2 pm) (PrevValue3 pm)
    v (commandsSentSinceLastChange pm)
    (mode pm) (mode21 pm) (mode31 pm) (mode301 pm) (mode41 pm) (mode401 pm) (mode4001 pm)
    (startupMode pm) (writeBits pm) (readBit pm) (readBits5 pm).

Definition set_commandsSentSinceLastChange (v : Z) (pm : pointMetadata) : pointMetadata :=
  mkPointMetadata (PrevNextPointID1 pm) (PrevStateFlags1 pm) (PrevStateFlags2 pm)
    (PrevValue1 pm) (PrevValue2 pm) (PrevValue3 pm)
    (commandStats pm) v
    (mode pm) (mode21 pm) (mode31 pm) (mode301 pm) (mode41 pm) (mode401 pm) (mode4001 pm)
    (startupMode pm) (writeBits pm) (readBit pm) (readBits5 pm).

Definition set_startupMode (v : Z) (pm : pointMetadata) : pointMetadata :=
  mkPointMetadata (PrevNextPointID1 pm) (PrevStateFlags1 pm) (PrevStateFlags2 pm)
    (PrevValue1 pm) (PrevValue2 pm) (PrevValue3 pm)
    (commandStats pm) (commandsSentSinceLastChange pm)
    (mode pm) (mode21 pm) (mode31 pm) (mode301 pm) (mode41 pm) (mode401 pm) (mode4001 pm)
    v (writeBits pm) (readBit pm) (readBits5 pm).

(** [pm.mode = m] together with the hot slots that go with it; the slots are
    given in the order [mode21], [mode31], [mode301], [mode41], [mode401],
    [mode4001]. *)
Definition set_modes (m m21 m31 m301 m41 m401 m4001 : Z) (pm : pointMetadata)
  : pointMetadata :=
  mkPointMetadata (PrevNextPointID1 pm) (PrevStateFlags1 pm) (PrevStateFlags2 pm)
    (PrevValue1 pm) (PrevValue2 pm) (PrevValue3 pm)
    (commandStats pm) (commandsSentSinceLastChange pm)
    m m21 m31 m301 m41 m401 m4001
    (startupMode pm) (writeBits pm) (readBit pm) (readBits5 pm).

Definition newPointMetadata (writeBits : option writeBitsFn)
    (readBit readBits5 : option readFn) : pointMetadata :=
  {| PrevNextPointID1 := 0; PrevStateFlags1 := 0; PrevStateFlags2 := 0;
     PrevValue1 := 0; PrevValue2 := 0; PrevValue3 := 0;
     commandStats := replicate 32 0;
     commandsSentSinceLastChange := 0;
     mode := 4;
     mode21 := 0; mode31 := 0; mode301 := 0;
     mode41 := codeWords.Value1;
     mode401 := codeWords.Value2;
     mode4001 := codeWords.Value3;
     startupMode := 0;
     writeBits := writeBits; readBit := readBit; readBits5 := readBits5 |}.

(** ** adaptCommands *)

Definition min (lv rv : Z) : Z :=
  if lv <? rv then lv
  else if rv <? lv then rv
  else lv.

(** The local variables of [adaptCommands]'s loop. *)
Record scan : Type := mkScan {
  code1 : Z; count1 : Z;
  code2 : Z; count2 : Z;
  code3 : Z; count3 : Z;
  total : Z
}.

Definition scan0 : scan :=
  {| code1 := 0; count1 := 0; code2 := 1; count2 := 0; code3 := 2; count3 := 0;
     total := 0 |}.

(** One iteration of the loop at index [i], where [count] is
    [int32(pm.commandStats[i])]. *)
Definition scanStep (i count : Z) (s : scan) : scan :=
  let total' := wrap_int32 (total s + count) in
  if count >? count3 s then
    if count >? count1 s then
      {| code3 := code2 s; count3 := count2 s;
         code2 := code1 s; count2 := count1 s;
         code1 := wrap_byte i; count1 := count;
         total := total' |}
    else if count >? count2 s then
      {| code3 := code2 s; count3 := count2 s;
         code2 := wrap_byte i; count2 := count;
         code1 := code1 s; count1 := count1 s;
         total := total' |}
    else
      {| code3 := wrap_byte i; count3 := count;
         code2 := code2 s; count2 := count2 s;
         code1 := code1 s; count1 := count1 s;
         total := total' |}
  else
    {| code3 := code3 s; count3 := count3 s;
       code2 := code2 s; count2 := count2 s;
       code1 := code1 s; count1 := count1 s;
       total := total' |}.

(** The loop from index [i] over the remaining entries [stats]: every entry
    is read, zeroed and fed to [scanStep]. Returns the zeroed entries and the
    final locals. *)
Fixpoint scanStats (i : Z) (stats : list Z) (s : scan) : list Z * scan :=
  match stats with
  | [] => ([], s)
  | count :: rest =>
      let '(zeroed, s') := scanStats (i + 1) rest (scanStep i count s) in
      (0 :: zeroed, s')
  end.

(** The four sizes. Wrapping the whole expression equals wrapping every
    intermediate [int32] result, since [+], [-] and [*] commute with the
    reduction modulo 2^32. *)
Definition mode1Size (s : scan) : Z := wrap_int32 (total s * 5).
Definition mode2Size (s : scan) : Z :=
  wrap_int32 (count1 s * 1 + (total s - count1 s) * 6).
Definition mode3Size (s : scan) : Z :=
  wrap_int32 (count1 s * 1 + count2 s * 2 + (total s - count1 s - count2 s) * 7).
Definition mode4Size (s : scan) : Z :=
  wrap_int32 (count1 s * 1 + count2 s * 2 + count3 s * 3
              + (total s - count1 s - count2 s - count3 s) * 8).

Definition minSize (s : scan) : Z :=
  min (min (min (min MaxInt32 (mode1Size s)) (mode2Size s)) (mode3Size s)) (mode4Size s).

Definition adaptCommands (pm : pointMetadata) : result pointMetadata :=
  let '(zeroed, s) := scanStats 0 (commandStats pm) scan0 in
  let pm := set_commandStats zeroed pm in
  pm ← (if minSize s =? mode1Size s then
          Ok (set_modes 1 (mode21 pm) (mode31 pm) (mode301 pm)
                (mode41 pm) (mode401 pm) (mode4001 pm) pm)
        else if minSize s =? mode2Size s then
          Ok (set_modes 2 (code1 s) (mode31 pm) (mode301 pm)
                (mode41 pm) (mode401 pm) (mode4001 pm) pm)
        else if minSize s =? mode3Size s then
          Ok (set_modes 3 (mode21 pm) (code1 s) (code2 s)
                (mode41 pm) (mode401 pm) (mode4001 pm) pm)
        else if minSize s =? mode4Size s then
          Ok (set_modes 4 (mode21 pm) (mode31 pm) (mode301 pm)
                (code1 s) (code2 s) (code3 s) pm)
        else
          match writeBits pm with
          | None => Panic SubscriberCodingError
          | Some _ => Panic PublisherCodingError
          end) ;
  Ok (set_commandsSentSinceLastChange 0 pm).

(** ** updatedCodeStatistics, WriteCode, ReadCode *)

Definition updatedCodeStatistics (pm : pointMetadata) (code : Z) : result pointMetadata :=
  let pm := set_commandsSentSinceLastChange
              (wrap_int32 (commandsSentSinceLastChange pm + 1)) pm in
  match (if 0 <=? code then commandStats pm !! Z.to_nat code else None) with
  | None => Panic IndexOutOfRange
  | Some n =>
      let pm := set_commandStats
                  (<[Z.to_nat code := wrap_byte (n + 1)]> (commandStats pm)) pm in
      if (startupMode pm =? 0) && (commandsSentSinceLastChange pm >? 5) then
        adaptCommands (set_startupMode (wrap_int32 (startupMode pm + 1)) pm)
      else if (startupMode pm =? 1) && (commandsSentSinceLastChange pm >? 20) then
        adaptCommands (set_startupMode (wrap_int32 (startupMode pm + 1)) pm)
      else if (startupMode pm =? 2) && (commandsSentSinceLastChange pm >? 100) then
        adaptCommands pm
      else
        Ok pm
  end.

Definition call_writeBits (pm : pointMetadata) (value n : Z) (bs : BitStream)
  : result BitStream :=
  match writeBits pm with
  | Some f => f value n bs
  | None => Panic NilFunction
  end.

Definition call_readBit (pm : pointMetadata) (bs : BitStream) : result (Z * BitStream) :=
  match readBit pm with
  | Some f => f bs
  | None => Panic NilFunction
  end.

Definition call_readBits5 (pm : pointMetadata) (bs : BitStream) : result (Z * BitStream) :=
  match readBits5 pm with
  | Some f => f bs
  | None => Panic NilFunction
  end.

Definition WriteCode (pm : pointMetadata) (code : Z) (bs : BitStream)
  : result (pointMetadata * BitStream) :=
  bs ← (match mode pm with
        | 1 => call_writeBits pm code 5 bs
        | 2 =>
            if code =? mode21 pm then call_writeBits pm 1 1 bs
            else call_writeBits pm code 6 bs
        | 3 =>
            if code =? mode31 pm then call_writeBits pm 1 1 bs
            else if code =? mode301 pm then call_writeBits pm 1 2 bs
            else call_writeBits pm code 7 bs
        | 4 =>
            if code =? mode41 pm then call_writeBits pm 1 1 bs
            else if code =? mode401 pm then call_writeBits pm 1 2 bs
            else if code =? mode4001 pm then call_writeBits pm 1 3 bs
            else call_writeBits pm code 8 bs
        | _ => Panic CodingError
        end) ;
  pm ← updatedCodeStatistics pm code ;
  Ok (pm, bs).

Definition ReadCode (pm : pointMetadata) (bs : BitStream)
  : result (Z * pointMetadata * BitStream) :=
  '(code, bs) ← (match mode pm with
        | 1 => call_readBits5 pm bs
        | 2 =>
            '(b, bs) ← call_readBit pm bs ;
            if b =? 1 then Ok (mode21 pm, bs)
            else call_readBits5 pm bs
        | 3 =>
            '(b, bs) ← call_readBit pm bs ;
            if b =? 1 then Ok (mode31 pm, bs)
            else
              '(b, bs) ← call_readBit pm bs ;
              if b =? 1 then Ok (mode301 pm, bs)
              else call_readBits5 pm bs
        | 4 =>
            '(b, bs) ← call_readBit pm bs ;
            if b =? 1 then Ok (mode41 pm, bs)
            else
              '(b, bs) ← call_readBit pm bs ;
              if b =? 1 then Ok (mode401 pm, bs)
              else
                '(b, bs) ← call_readBit pm bs ;
                if b =? 1 then Ok (mode4001 pm, bs)
                else call_readBits5 pm bs
        | _ => Panic UnsupportedCompressionMode
        end) ;
  pm ← updatedCodeStatistics pm code ;
  Ok (code, pm, bs).

End Tssc.

(** ** guid.HashSet *)

Module GuidSet.
Section HashSet.
(** [guid.Guid] is declared in another file of the package; any type with
    decidable equality and an enumeration can stand for it. A
    [map[Guid]void] is then a finite set of Guids. *)
Context {Guid : Type} `{Countable Guid}.

Definition IsEmpty (hs : gset Guid) : bool := (size hs =? 0)%nat.

Definition Contains (hs : gset Guid) (item : Guid) : bool := bool_decide (item ∈ hs).

(** The [for _, v := range other] loop shared by the superset tests: [false]
    at the first element that [hs] lacks, [true] when the slice is used up. *)
Fixpoint containsEach (hs : gset Guid) (other : list Guid) : bool :=
  match other with
  | [] => true
  | v :: rest => if negb (Contains hs v) then false else containsEach hs rest
  end.

Definition IsSupersetOf (hs : gset Guid) (other : list Guid) : bool :=
  if (length other =? 0)%nat then true
  else if (size hs <? length other)%nat then false
  else containsEach hs other.

Definition IsProperSupersetOf (hs : gset Guid) (other : list Guid) : bool :=
  if IsEmpty hs then true
  else if (length other =? 0)%nat then true
  else if (size hs <=? length other)%nat then false
  else containsEach hs other.
End HashSet.
End GuidSet.

(** ** metadata.DataRow *)

Module Metadata.

(** What [errors.New] is called with: [getColumnIndex]'s and
    [validateColumnType]'s two messages, kept as their parts. *)
Inductive error : Type :=
| ColumnNameNotFound (columnName tableName : string)
| ColumnIndexOutOfRange (columnIndex : Z) (tableName : string).

Inductive rowPanic : Type :=
| CannotReadOrAssign (read : bool) (targetType : Z) (columnName tableName : string)
    (columnType : Z)
| CannotAssignComputed (columnName tableName : string)
| NilColumn
| ValueIndexOutOfRange.

(** A call either returns Go's pair [(result, error)] or panics. *)
Inductive outcome (A : Type) : Type :=
| Return (a : A) (err : option error)
| Panicked (p : rowPanic).
Arguments Return {A} a err.
Arguments Panicked {A} p.

Section DataRow.
(** [DataTable] and [DataColumn] are declared in other files of the package;
    the row code only goes through the accessors below, which are taken as
    given. [V] stands for the dynamic values an [interface{}] cell can hold,
    [None] being Go's [nil]. *)
Context {DataTable DataColumn V : Type}.
Variable Column : DataTable → Z → option DataColumn.
Variable TableName : DataTable → string.
Variable ColumnName : DataColumn → string.
Variable ColumnType : DataColumn → Z.
Variable Computed : DataColumn → bool.

Record DataRow : Type := mkDataRow {
  parent : DataTable;
  values : list (option V)
}.

Definition validateColumnType (dr : DataRow) (columnIndex targetType : Z) (read : bool)
  : outcome (option DataColumn) :=
  match Column (parent dr) columnIndex with
  | None => Return None (Some (ColumnIndexOutOfRange columnIndex (TableName (parent dr))))
  | Some column =>
      if (targetType >? -1) && negb (ColumnType column =? targetType) then
        Panicked (CannotReadOrAssign read targetType (ColumnName column)
                    (TableName (parent dr)) (ColumnType column))
      else if negb read && Computed column then
        Panicked (CannotAssignComputed (ColumnName column) (TableName (parent dr)))
      else Return (Some column) None
  end.

Definition getComputedValue (dr : DataRow) (column : DataColumn) : outcome (option V) :=
  Return None None.

Definition Value (dr : DataRow) (columnIndex : Z) : outcome (option V) :=
  match validateColumnType dr columnIndex (-1) true with
  | Panicked p => Panicked p
  | Return _ (Some err) => Return None (Some err)
  | Return None None => Panicked NilColumn
  | Return (Some column) None =>
      if Computed column then getComputedValue dr column
      else
        match (if 0 <=? columnIndex then values dr !! Z.to_nat columnIndex else None) with
        | Some v => Return v None
        | None => Panicked ValueIndexOutOfRange
        end
  end.
End DataRow.
End Metadata.

(** ** Specification-side notions for the symbol coder *)

Module TsscSpec.
Import Tssc.

(** The histogram as the data model has it: 32 entries, each a byte. *)
Definition stats_wf (stats : list Z) : bool :=
  (length stats =? 32)%nat && forallb (λ x, (0 <=? x) && (x <? 256)) stats.

(** The state [adaptCommands] leaves behind: its four regular branches, the
    last one taken without the test that guards it. *)
Definition adapted (pm : pointMetadata) : pointMetadata :=
  let '(zeroed, s) := scanStats 0 (commandStats pm) scan0 in
  let pm := set_commandStats zeroed pm in
  set_commandsSentSinceLastChange 0
    (if minSize s =? mode1Size s then
       set_modes 1 (mode21 pm) (mode31 pm) (mode301 pm)
         (mode41 pm) (mode401 pm) (mode4001 pm) pm
     else if minSize s =? mode2Size s then
       set_modes 2 (code1 s) (mode31 pm) (mode301 pm)
         (mode41 pm) (mode401 pm) (mode4001 pm) pm
     else if minSize s =? mode3Size s then
       set_modes 3 (mode21 pm) (code1 s) (code2 s)
         (mode41 pm) (mode401 pm) (mode4001 pm) pm
     else
       set_modes 4 (mode21 pm) (mode31 pm) (mode301 pm)
         (code1 s) (code2 s) (code3 s) pm).

(** The first two statements of [updatedCodeStatistics]: the counter is
    incremented and entry [code], which held [n], is bumped. *)
Definition counted (pm : pointMetadata) (code n : Z) : pointMetadata :=
  set_commandStats (<[Z.to_nat code := wrap_byte (n + 1)]> (commandStats pm))
    (set_commandsSentSinceLastChange
       (wrap_int32 (commandsSentSinceLastChange pm + 1)) pm).

(** Two states agree on everything the coder reads and writes. *)
Definition same_coder (a b : pointMetadata) : Prop :=
  mode a = mode b ∧
  mode21 a = mode21 b ∧ mode31 a = mode31 b ∧ mode301 a = mode301 b ∧
  mode41 a = mode41 b ∧ mode401 a = mode401 b ∧ mode4001 a = mode4001 b ∧
  commandStats a = commandStats b ∧
  commandsSentSinceLastChange a = commandsSentSinceLastChange b ∧
  startupMode a = startupMode b.

(** Runs: a sequence of [WriteCode] and [ReadCode] calls on one state and one
    stream. *)
Inductive op : Set :=
| Write (code : Z)
| Read.

Definition step (c : pointMetadata * BitStream) (o : op)
  : result (pointMetadata * BitStream) :=
  match o with
  | Write code => WriteCode c.1 code c.2
  | Read => '(_, pm, bs) ← ReadCode c.1 c.2; Ok (pm, bs)
  end.

Fixpoint run (ops : list op) (c : pointMetadata * BitStream)
  : result (pointMetadata * BitStream) :=
  match ops with
  | [] => Ok c
  | o :: ops' => c' ← step c o; run ops' c'
  end.

(** Where a state stands in the start-up schedule, and how many symbols are
    left until [startupMode] stops changing. *)
Definition sched_inv (pm : pointMetadata) : Prop :=
  (startupMode pm = 0 ∧ 0 ≤ commandsSentSinceLastChange pm ≤ 5) ∨
  (startupMode pm = 1 ∧ 0 ≤ commandsSentSinceLastChange pm ≤ 20) ∨
  (startupMode pm = 2 ∧ 0 ≤ commandsSentSinceLastChange pm ≤ 100).

Definition rank (pm : pointMetadata) : Z :=
  if startupMode pm =? 0 then 27 - commandsSentSinceLastChange pm
  else if startupMode pm =? 1 then 21 - commandsSentSinceLastChange pm
  else 0.

(** The encoder's and the decoder's fresh state. *)
Definition encoder0 : pointMetadata := newPointMetadata (Some bs_writeBits) None None.
Definition decoder0 : pointMetadata :=
  newPointMetadata None (Some bs_readBit) (Some bs_readBits5).

(** An encoder state in the third stage of the schedule, one symbol short of
    its next adaptation: 100 symbols counted, all of them [Value1]. *)
Definition encoder_stage2 : pointMetadata :=
  set_commandStats (<[20%nat := 100]> (replicate 32 0))
    (set_commandsSentSinceLastChange 100
       (set_startupMode 2
          (set_modes 2 20 0 0 20 21 22 encoder0))).

(** Section 4.2's expected sizes. *)
Definition size (m T c1 c2 c3 : Z) : Z :=
  match m with
  | 1 => 5 * T
  | 2 => 1 * c1 + 6 * (T - c1)
  | 3 => 1 * c1 + 2 * c2 + 7 * (T - c1 - c2)
  | _ => 1 * c1 + 2 * c2 + 3 * c3 + 8 * (T - c1 - c2 - c3)
  end.

Definition sum (l : list Z) : Z := foldr Z.add 0 l.

(** Section 4.2's prefix templates: the five raw bits of a symbol, and the
    spelling of a symbol under each mode. *)
Definition raw5 (S : Z) : list bool :=
  [Z.testbit S 4; Z.testbit S 3; Z.testbit S 2; Z.testbit S 1; Z.testbit S 0].

Definition spelling (pm : pointMetadata) (S : Z) : list bool :=
  match mode pm with
  | 1 => raw5 S
  | 2 => if S =? mode21 pm then [true] else false :: raw5 S
  | 3 =>
      if S =? mode31 pm then [true]
      else if S =? mode301 pm then [false; true]
      else false :: false :: raw5 S
  | _ =>
      if S =? mode41 pm then [true]
      else if S =? mode401 pm then [false; true]
      else if S =? mode4001 pm then [false; false; true]
      else false :: false :: false :: raw5 S
  end.

(** What the scan knows about the counts after [i] entries: they are
    ordered bytes, [total] is the sum of the entries seen, and the three
    counts are the three largest of the entries seen together with the three
    zeros the locals start from. *)
Definition counts_inv (stats : list Z) (i : nat) (s : scan) : Prop :=
  0 ≤ count3 s ∧ count3 s ≤ count2 s ∧ count2 s ≤ count1 s ∧ count1 s ≤ 255 ∧
  total s = sum (take i stats) ∧
  count1 s + count2 s + count3 s ≤ total s ∧ total s ≤ 255 * Z.of_nat i ∧
  ∃ rest, 0 :: 0 :: 0 :: take i stats ≡ₚ count1 s :: count2 s :: count3 s :: rest ∧
          Forall (λ y, y ≤ count3 s) rest.

(** What the scan knows about the codes after [i] entries. A rank whose
    count is positive holds a real index, distinct from the ranks above it,
    whose entry is that count; every entry seen that is not held by a rank
    above is at most the rank's count, and on a tie with it comes later. *)
Definition codes_inv (stats : list Z) (i : nat) (s : scan) : Prop :=
  (0 < count1 s → 0 ≤ code1 s < Z.of_nat i) ∧
  (0 < count1 s → stats !! Z.to_nat (code1 s) = Some (count1 s)) ∧
  (0 < count2 s → 0 ≤ code2 s < Z.of_nat i ∧ code2 s ≠ code1 s) ∧
  (0 < count2 s → stats !! Z.to_nat (code2 s) = Some (count2 s)) ∧
  (0 < count3 s →
     0 ≤ code3 s < Z.of_nat i ∧ code3 s ≠ code1 s ∧ code3 s ≠ code2 s) ∧
  (0 < count3 s → stats !! Z.to_nat (code3 s) = Some (count3 s)) ∧
  (∀ j y, (j < i)%nat → stats !! j = Some y →
     y ≤ count1 s ∧ (y = count1 s → 0 < y → code1 s ≤ Z.of_nat j)) ∧
  (∀ j y, (j < i)%nat → stats !! j = Some y →
     (0 < count1 s → Z.of_nat j ≠ code1 s) →
     y ≤ count2 s ∧ (y = count2 s → 0 < y → code2 s ≤ Z.of_nat j)) ∧
  (∀ j y, (j < i)%nat → stats !! j = Some y →
     (0 < count1 s → Z.of_nat j ≠ code1 s) →
     (0 < count2 s → Z.of_nat j ≠ code2 s) →
     y ≤ count3 s ∧ (y = count3 s → 0 < y → code3 s ≤ Z.of_nat j)).

(** Section 4.2's tie-break, one rank at a time: [k] is the lowest index,
    among the indices not in [excl], whose entry [c] is maximal among the
    entries of the indices not in [excl]. *)
Definition least_max_excluding (stats : list Z) (excl : list Z) (k c : Z) : Prop :=
  (k ∉ excl) ∧ 0 ≤ k ∧ stats !! Z.to_nat k = Some c ∧
  ∀ j y, stats !! j = Some y → Z.of_nat j ∉ excl →
         y ≤ c ∧ (y = c → k ≤ Z.of_nat j).

(** The three ranks together: the lexicographically least choice of three
    indices with maximal counts. *)
Definition lex_least_top3 (stats : list Z) (k1 k2 k3 : Z) : Prop :=
  ∃ c1 c2 c3,
    least_max_excluding stats [] k1 c1 ∧
    least_max_excluding stats [k1] k2 c2 ∧
    least_max_excluding stats [k1; k2] k3 c3.

(** A histogram with a single symbol counted: [EndOfStream] seen 7 times. *)
Definition stats_single : list Z := 7 :: replicate 31 0.

(** A histogram with a four-way tie at the top. *)
Definition stats_tied : list Z := 5 :: 5 :: 5 :: 5 :: replicate 28 0.

(** An encoder about to adapt for the first time, having counted [Value1]
    five times and [PointIDXOR32] once. *)
Definition encoder_six : pointMetadata :=
  set_commandStats (<[20%nat := 5]> (<[7%nat := 1]> (replicate 32 0))) encoder0.

(** The part of the data model the coder relies on: a mode in 1..4 and a
    histogram of 32 entries. *)
Definition coder_wf (pm : pointMetadata) : Prop :=
  1 ≤ mode pm ≤ 4 ∧ length (commandStats pm) = 32%nat.

(** The encoder writing a sequence of symbols, and the decoder reading back
    [n] symbols. *)
Fixpoint writeCodes (codes : list Z) (pm : pointMetadata) (bs : BitStream)
  : result (pointMetadata * BitStream) :=
  match codes with
  | [] => Ok (pm, bs)
  | code :: codes' => '(pm', bs') ← WriteCode pm code bs; writeCodes codes' pm' bs'
  end.

Fixpoint readCodes (n : nat) (pm : pointMetadata) (bs : BitStream)
  : result (list Z * pointMetadata * BitStream) :=
  match n with
  | O => Ok ([], pm, bs)
  | S n' =>
      '(code, pm', bs') ← ReadCode pm bs;
      '(codes, pm'', bs'') ← readCodes n' pm' bs';
      Ok (code :: codes, pm'', bs'')
  end.

End TsscSpec.

(** ** guid.HashSet: the remaining methods *)

(** A method that changes the map returns the new set, next to its Go
    result when it has one. A [for k := range hs] loop visits the keys in
    the order of [elements]; the loops below delete at most the key they
    are visiting, so every key is visited once. Where a method takes a
    second set, that set is only read (through [Keys] or [Contains]) and
    passing the receiver itself gives the same result as passing its
    value. *)
Module GuidSetOps.
Import GuidSet.

Section HashSet.
Context {Guid : Type} `{Countable Guid}.

Definition Add (hs : gset Guid) (item : Guid) : gset Guid * bool :=
  if Contains hs item then (hs, false)
  else ({[item]} ∪ hs, true).

Definition Remove (hs : gset Guid) (item : Guid) : gset Guid * bool :=
  if Contains hs item then (hs ∖ {[item]}, true)
  else (hs, false).

(** The loop of [RemoveWhere] over the keys still to visit. *)
Fixpoint removeWhereLoop (predicate : Guid → bool) (keys : list Guid)
    (hs : gset Guid) (removedCount : nat) : gset Guid * nat :=
  match keys with
  | [] => (hs, removedCount)
  | k :: rest =>
      if predicate k then
        let '(hs', removed) := Remove hs k in
        removeWhereLoop predicate rest hs' (if removed then S removedCount else removedCount)
      else removeWhereLoop predicate rest hs removedCount
  end.

Definition RemoveWhere (hs : gset Guid) (predicate : Guid → bool) : gset Guid * nat :=
  removeWhereLoop predicate (elements hs) hs 0.

Definition Clear (hs : gset Guid) : gset Guid :=
  foldl (λ acc k, acc ∖ {[k]}) hs (elements hs).

Definition Keys (hs : gset Guid) : list Guid := elements hs.

Fixpoint ExceptWith (hs : gset Guid) (other : list Guid) : gset Guid :=
  match other with
  | [] => hs
  | v :: rest => ExceptWith (hs ∖ {[v]}) rest
  end.

Definition ExceptWithSet (hs other : gset Guid) : gset Guid :=
  ExceptWith hs (Keys other).

Fixpoint UnionWith (hs : gset Guid) (other : list Guid) : gset Guid :=
  match other with
  | [] => hs
  | v :: rest => UnionWith (Add hs v).1 rest
  end.


Definition NewHashSet (items : list Guid) : gset Guid := UnionWith ∅ items.




(** The loop of [IntersectWithSet] over the keys still to visit. *)
Fixpoint intersectLoop (other : gset Guid) (keys : list Guid) (hs : gset Guid)
  : gset Guid :=
  match keys with
  | [] => hs
  | k :: rest =>
      if negb (Contains other k) then intersectLoop other rest (Remove hs k).1
      else intersectLoop other rest hs
  end.

Definition IntersectWithSet (hs other : gset Guid) : gset Guid :=
  if (size hs =? 0)%nat then hs
  else if (size other =? 0)%nat then Clear hs
  else intersectLoop other (elements hs) hs.

Definition IntersectWith (hs : gset Guid) (other : list Guid) : gset Guid :=
  IntersectWithSet hs (NewHashSet other).

Definition SetEquals (hs : gset Guid) (other : list Guid) : bool :=
  if negb (size hs =? length other)%nat then false
  else containsEach hs other.

Definition SetEqualsSet (hs other : gset Guid) : bool :=
  SetEquals hs (Keys other).

(** The loop of [Overlaps]: [true] at the first element found in [hs]. *)
Fixpoint containsSome (hs : gset Guid) (other : list Guid) : bool :=
  match other with
  | [] => false
  | v :: rest => if Contains hs v then true else containsSome hs rest
  end.

Definition Overlaps (hs : gset Guid) (other : list Guid) : bool :=
  if IsEmpty hs then false
  else containsSome hs other.

Definition OverlapsSet (hs other : gset Guid) : bool :=
  Overlaps hs (Keys other).

Definition IsSubsetOfSet (hs other : gset Guid) : bool :=
  if IsEmpty hs then true
  else if (size other <? size hs)%nat then false
  else containsEach other (elements hs).

Definition IsSubsetOf (hs : gset Guid) (other : list Guid) : bool :=
  IsSubsetOfSet hs (NewHashSet other).

Definition IsProperSubsetOfSet (hs other : gset Guid) : bool :=
  if IsEmpty hs then (0 <? size other)%nat
  else if (size other <=? size hs)%nat then false
  else containsEach other (elements hs).

Definition IsProperSubsetOf (hs : gset Guid) (other : list Guid) : bool :=
  IsProperSubsetOfSet hs (NewHashSet other).

Definition IsSupersetOfSet (hs other : gset Guid) : bool :=
  IsSupersetOf hs (Keys other).

Definition IsProperSupersetOfSet (hs other : gset Guid) : bool :=
  IsProperSupersetOf hs (Keys other).
End HashSet.
End GuidSetOps.

(** ** Sample data *)

Module Samples.
(** A table given by its name and, per column, a name, a type and whether
    the column is computed. *)
Definition sampleTable : string * list (string * Z * bool) :=
  ("Measurements"%string,
   [("ID"%string, 7, false); ("Rate"%string, 3, true)]).

Definition sampleColumn (t : string * list (string * Z * bool)) (i : Z)
  : option (string * Z * bool) :=
  if 0 <=? i then t.2 !! Z.to_nat i else None.

Definition sampleRow : Metadata.DataRow (DataTable := string * list (string * Z * bool)) (V := Z) :=
  Metadata.mkDataRow sampleTable [Some 42; Some 60].
End Samples.

(** ** ticks.Ticks *)

(** A [Ticks] is a [uint64]: a [Z] in [0, 2^64), arithmetic reduced modulo
    2^64. Methods with a pointer receiver return the new value. *)
Module Ticks.

Definition wrap_uint64 (x : Z) : Z := x mod 18446744073709551616.
Definition wrap_int64 (x : Z) : Z :=
  (x + 9223372036854775808) mod 18446744073709551616 - 9223372036854775808.

(** Go's [^x] on a [uint64]. *)
Definition not64 (x : Z) : Z := Z.lxor x 18446744073709551615.

Definition Min : Z := 0.
Definition Max : Z := 3155378975999999999.
Definition PerMicrosecond : Z := 10.
Definition PerMillisecond : Z := PerMicrosecond * 1000.
Definition LeapSecondFlag : Z := Z.shiftl 1 63.
Definition LeapSecondDirection : Z := Z.shiftl 1 62.
Definition ValueMask : Z := Z.land (not64 LeapSecondFlag) (not64 LeapSecondDirection).
Definition UnixBaseOffset : Z := 621355968000000000.

Definition TimestampValue (t : Z) : Z := wrap_int64 (Z.land t ValueMask).

Definition FromUnixNs (ns : Z) : Z := wrap_uint64 (ns / 100 + UnixBaseOffset).

Definition ToUnixNs (t : Z) : Z :=
  wrap_uint64 (wrap_uint64 (Z.land t ValueMask - UnixBaseOffset) * 100).

Definition IsLeapSecond (t : Z) : bool := negb (Z.land t LeapSecondFlag =? 0).

Definition SetLeapSecond (t : Z) : Z := Z.lor t LeapSecondFlag.

Definition SetLeapSecondDirection (t : Z) (negative : bool) : Z :=
  if negative then Z.lor t LeapSecondDirection
  else Z.land t (not64 LeapSecondDirection).

Definition IsNegativeLeapSecond (t : Z) : bool :=
  IsLeapSecond t && negb (Z.land t LeapSecondDirection =? 0).

(** The values of the type. *)
Definition is_uint64 (x : Z) : Prop := 0 ≤ x < 18446744073709551616.

End Ticks.

(** ** Specification-side notions for runs and encoded sizes *)

Module TsscRunSpec.
Import Tssc TsscSpec.

(** A symbol of the alphabet. *)
Definition symbol (x : Z) : Prop := 0 ≤ x < 32.

(** What holds of every state a fresh one can reach. *)
Definition reach_inv (pm : pointMetadata) : Prop :=
  coder_wf pm ∧ stats_wf (commandStats pm) = true ∧
  sum (commandStats pm) = commandsSentSinceLastChange pm ∧
  sched_inv pm ∧
  symbol (mode21 pm) ∧ symbol (mode31 pm) ∧ symbol (mode301 pm) ∧
  symbol (mode41 pm) ∧ symbol (mode401 pm) ∧ symbol (mode4001 pm).

(** The histogram entry of symbol [i]; 0 outside the histogram. *)
Definition entry (stats : list Z) (i : Z) : Z :=
  if 0 <=? i then default 0 (stats !! Z.to_nat i) else 0.

(** The sum of the entries from index [k] on, each weighted by [f] of its
    index. *)
Fixpoint wsum (f : Z → Z) (k : Z) (l : list Z) : Z :=
  match l with
  | [] => 0
  | y :: l' => y * f k + wsum f (k + 1) l'
  end.

(** The number of bits [WriteCode] emits in state [q] for a sequence of
    symbols counted by the histogram [stats]. *)
Definition cost (q : pointMetadata) (stats : list Z) : Z :=
  wsum (λ S, Z.of_nat (length (spelling q S))) 0 stats.

End TsscRunSpec.

(** ** metadata.DataRow: construction, assignment, reads by name, typed reads *)

Module DataRowOps.
Import Metadata.

(** The result of a typed read: Go's pair, a panic raised by the row code,
    or the runtime panic of a failed type assertion [value.(T)]. *)
Inductive typed (A : Type) : Type :=
| TypedReturn (a : A) (err : option error)
| TypedPanicked (p : rowPanic)
| InterfaceConversionPanic.
Arguments TypedReturn {A} a err.
Arguments TypedPanicked {A} p.
Arguments InterfaceConversionPanic {A}.

Section DataRow.
(** Beyond the accessors the reads by index use, the table gives its number
    of columns and its columns by name, a column gives its index, and
    [DataTypeString] is [DataType.String]. [asString v] is the string held
    by the dynamic value [v], if it holds one: the type assertion
    [x.(string)] succeeds exactly then, and fails on [nil]. *)
Context {DataTable DataColumn V : Type}.
Variable Column : DataTable → Z → option DataColumn.
Variable TableName : DataTable → string.
Variable ColumnName : DataColumn → string.
Variable ColumnType : DataColumn → Z.
Variable Computed : DataColumn → bool.
Variable ColumnCount : DataTable → nat.
Variable ColumnByName : DataTable → string → option DataColumn.
Variable Index : DataColumn → Z.
Variable DataTypeString : Z.
Variable asString : V → option string.

Local Abbreviation Row := (@DataRow DataTable V).

Definition newDataRow (parent : DataTable) : Row :=
  mkDataRow parent (replicate (ColumnCount parent) None).

Definition getColumnIndex (dr : Row) (columnName : string) : outcome Z :=
  match ColumnByName (parent dr) columnName with
  | None => Return (-1) (Some (ColumnNameNotFound columnName (TableName (parent dr))))
  | Some column => Return (Index column) None
  end.

(** [dr.values[i]], which panics outside the slice. *)
Definition cell (dr : Row) (i : Z) : option (option V) :=
  if 0 <=? i then values dr !! Z.to_nat i else None.

Definition ValueByName (dr : Row) (columnName : string)
  : outcome (option V) :=
  match getColumnIndex dr columnName with
  | Panicked p => Panicked p
  | Return _ (Some err) => Return None (Some err)
  | Return index None =>
      match cell dr index with
      | Some v => Return v None
      | None => Panicked ValueIndexOutOfRange
      end
  end.

(** [SetValue] returns the row after the call next to its error. *)
Definition SetValue (dr : Row) (columnIndex : Z) (value : option V)
  : outcome (Row) :=
  match validateColumnType Column TableName ColumnName ColumnType Computed
          dr columnIndex (-1) false with
  | Panicked p => Panicked p
  | Return _ (Some err) => Return dr (Some err)
  | Return _ None =>
      match cell dr columnIndex with
      | Some _ =>
          Return (mkDataRow (parent dr) (<[Z.to_nat columnIndex := value]> (values dr)))
                 None
      | None => Panicked ValueIndexOutOfRange
      end
  end.

Definition SetValueByName (dr : Row) (columnName : string)
    (value : option V) : outcome (Row) :=
  match getColumnIndex dr columnName with
  | Panicked p => Panicked p
  | Return _ (Some err) => Return dr (Some err)
  | Return index None => SetValue dr index value
  end.

(** The type assertion [x.(string)] on an interface value. *)
Definition assertString (x : option V) : option string :=
  match x with
  | Some v => asString v
  | None => None
  end.

Definition StringValue (dr : Row) (columnIndex : Z) : typed string :=
  match validateColumnType Column TableName ColumnName ColumnType Computed
          dr columnIndex DataTypeString true with
  | Panicked p => TypedPanicked p
  | Return _ (Some err) => TypedReturn ""%string (Some err)
  | Return None None => TypedPanicked NilColumn
  | Return (Some column) None =>
      if Computed column then
        match getComputedValue dr column with
        | Panicked p => TypedPanicked p
        | Return _ (Some err) => TypedReturn ""%string (Some err)
        | Return value None =>
            match assertString value with
            | Some s => TypedReturn s None
            | None => InterfaceConversionPanic
            end
        end
      else
        match cell dr columnIndex with
        | None => TypedPanicked ValueIndexOutOfRange
        | Some x =>
            match assertString x with
            | Some s => TypedReturn s None
            | None => InterfaceConversionPanic
            end
        end
  end.

Definition StringValueByName (dr : Row) (columnName : string)
  : typed string :=
  match getColumnIndex dr columnName with
  | Panicked p => TypedPanicked p
  | Return _ (Some err) => TypedReturn ""%string (Some err)
  | Return index None => StringValue dr index
  end.
End DataRow.
End DataRowOps.

(** Sample data for the row operations: a table of three columns, the last
    one computed, whose cells hold strings. *)
Module RowSamples.
Definition columns : list (string * Z * bool) :=
  [("ID"%string, 7, false); ("Name"%string, 0, false); ("Label"%string, 0, true)].

Definition table : string * list (string * Z * bool) := ("Device"%string, columns).

Definition columnAt (t : string * list (string * Z * bool)) (i : Z)
  : option (Z * (string * Z * bool)) :=
  if 0 <=? i then (λ c, (i, c)) <$> t.2 !! Z.to_nat i else None.

Definition columnNamed (t : string * list (string * Z * bool)) (name : string)
  : option (Z * (string * Z * bool)) :=
  (λ p, (Z.of_nat p.1, p.2)) <$> list_find (λ c, c.1.1 = name) t.2.

Definition row : Metadata.DataRow (DataTable := string * list (string * Z * bool))
                                  (V := string) :=
  Metadata.mkDataRow table [None; Some "relay"%string; None].
End RowSamples.

(** * Properties *)

Module TsscProps.
Import Tssc TsscSpec.

(** ** Machine arithmetic *)

Lemma wrap_int32_range x : -2147483648 ≤ wrap_int32 x ≤ MaxInt32.
Proof.
  unfold wrap_int32, MaxInt32.
  pose proof (Z.mod_pos_bound (x + 2147483648) 4294967296). lia.
Qed.

Lemma wrap_int32_small x : -2147483648 ≤ x ≤ 2147483647 → wrap_int32 x = x.
Proof.
  intros Hx. unfold wrap_int32.
  rewrite Z.mod_small by lia. lia.
Qed.

Lemma wrap_byte_small x : 0 ≤ x < 256 → wrap_byte x = x.
Proof. intros Hx. unfold wrap_byte. apply Z.mod_small. lia. Qed.

Lemma min_spec lv rv : min lv rv = Z.min lv rv.
Proof.
  unfold min.
  destruct (Z.ltb_spec lv rv); [lia|].
  destruct (Z.ltb_spec rv lv); lia.
Qed.

Lemma minSize_spec s :
  minSize s = Z.min (Z.min (Z.min (mode1Size s) (mode2Size s)) (mode3Size s)) (mode4Size s).
Proof.
  unfold minSize. rewrite !min_spec.
  pose proof (wrap_int32_range (total s * 5)) as H1.
  fold (mode1Size s) in H1. lia.
Qed.

(** ** adaptCommands never panics *)

Lemma minSize_cases s :
  minSize s = mode1Size s ∨ minSize s = mode2Size s ∨
  minSize s = mode3Size s ∨ minSize s = mode4Size s.
Proof. rewrite minSize_spec. lia. Qed.

Lemma adaptCommands_adapted pm : adaptCommands pm = Ok (adapted pm).
Proof.
  unfold adaptCommands, adapted.
  destruct (scanStats 0 (commandStats pm) scan0) as [zeroed s].
  pose proof (minSize_cases s) as E.
  destruct (Z.eqb_spec (minSize s) (mode1Size s)); [reflexivity|].
  destruct (Z.eqb_spec (minSize s) (mode2Size s)); [reflexivity|].
  destruct (Z.eqb_spec (minSize s) (mode3Size s)); [reflexivity|].
  destruct (Z.eqb_spec (minSize s) (mode4Size s)); [reflexivity|].
  intuition congruence.
Qed.

Lemma adapted_startupMode pm : startupMode (adapted pm) = startupMode pm.
Proof.
  unfold adapted. destruct (scanStats _ _ _) as [zeroed s].
  repeat case_match; reflexivity.
Qed.

Lemma adapted_counter pm : commandsSentSinceLastChange (adapted pm) = 0.
Proof.
  unfold adapted. destruct (scanStats _ _ _) as [zeroed s].
  repeat case_match; reflexivity.
Qed.

Lemma adapted_io pm :
  writeBits (adapted pm) = writeBits pm ∧ readBit (adapted pm) = readBit pm ∧
  readBits5 (adapted pm) = readBits5 pm.
Proof.
  unfold adapted. destruct (scanStats _ _ _) as [zeroed s].
  repeat case_match; auto.
Qed.

(** C8: for every histogram (non-negative or not) the minimum of the four
    mode sizes that [adaptCommands] computes equals one of [mode1Size],
    [mode2Size], [mode3Size], [mode4Size], so the final [else] branch with its
    two coding-error panics is never taken: [adaptCommands] returns. *)
Theorem adaptCommands_coding_error_unreachable (pm : pointMetadata) :
  let s := (scanStats 0 (commandStats pm) scan0).2 in
  (minSize s = mode1Size s ∨ minSize s = mode2Size s ∨
   minSize s = mode3Size s ∨ minSize s = mode4Size s) ∧
  ∃ pm', adaptCommands pm = Ok pm'.
Proof.
  split; [apply minSize_cases|].
  eexists. apply adaptCommands_adapted.
Qed.

(** C7: every state returned by [newPointMetadata] starts in mode 4 with the
    three hot slots [mode41], [mode401], [mode4001] set to the symbols
    [Value1], [Value2], [Value3], whose indices are 20, 21 and 22. *)
Theorem newPointMetadata_initial_mode
    (w : option writeBitsFn) (r r5 : option readFn) :
  mode (newPointMetadata w r r5) = 4 ∧
  mode41 (newPointMetadata w r r5) = codeWords.Value1 ∧
  mode401 (newPointMetadata w r r5) = codeWords.Value2 ∧
  mode4001 (newPointMetadata w r r5) = codeWords.Value3 ∧
  codeWords.Value1 = 20 ∧ codeWords.Value2 = 21 ∧ codeWords.Value3 = 22.
Proof. repeat split. Qed.

(** ** The adaptation schedule *)

Lemma updatedCodeStatistics_unfold pm code n :
  0 ≤ code → commandStats pm !! Z.to_nat code = Some n →
  updatedCodeStatistics pm code =
    let pm1 := counted pm code n in
    if (startupMode pm1 =? 0) && (commandsSentSinceLastChange pm1 >? 5) then
      Ok (adapted (set_startupMode (wrap_int32 (startupMode pm1 + 1)) pm1))
    else if (startupMode pm1 =? 1) && (commandsSentSinceLastChange pm1 >? 20) then
      Ok (adapted (set_startupMode (wrap_int32 (startupMode pm1 + 1)) pm1))
    else if (startupMode pm1 =? 2) && (commandsSentSinceLastChange pm1 >? 100) then
      Ok (adapted pm1)
    else Ok pm1.
Proof.
  intros Hc Hn. unfold updatedCodeStatistics.
  destruct (Z.leb_spec 0 code); [|lia].
  cbn [set_commandsSentSinceLastChange commandStats]. rewrite Hn.
  rewrite !adaptCommands_adapted. reflexivity.
Qed.

Lemma updatedCodeStatistics_index pm code pm' :
  updatedCodeStatistics pm code = Ok pm' →
  0 ≤ code ∧ ∃ n, commandStats pm !! Z.to_nat code = Some n.
Proof.
  unfold updatedCodeStatistics.
  destruct (Z.leb_spec 0 code); [|discriminate].
  cbn [set_commandsSentSinceLastChange commandStats].
  destruct (commandStats pm !! Z.to_nat code) as [n|]; [|discriminate].
  eauto.
Qed.

Lemma WriteCode_updates pm code bs pm' bs' :
  WriteCode pm code bs = Ok (pm', bs') → updatedCodeStatistics pm code = Ok pm'.
Proof.
  unfold WriteCode. intros H.
  destruct (match mode pm with 1 => _ | _ => _ end) as [bs1|]; [|discriminate].
  cbn in H. destruct (updatedCodeStatistics pm code); [|discriminate].
  cbn in H. congruence.
Qed.

Lemma ReadCode_updates pm bs code pm' bs' :
  ReadCode pm bs = Ok (code, pm', bs') → updatedCodeStatistics pm code = Ok pm'.
Proof.
  unfold ReadCode. intros H.
  destruct (match mode pm with 1 => _ | _ => _ end) as [[c bs1]|]; [|discriminate].
  cbn in H. destruct (updatedCodeStatistics pm c) eqn:E; [|discriminate].
  cbn in H. congruence.
Qed.

(** C1, as the code has it: after each symbol is coded by [WriteCode] or
    [ReadCode], [updatedCodeStatistics] increments
    [commandsSentSinceLastChange] and bumps [commandStats[S]]; then, if
    [startupMode = 0] and the counter exceeds 5, [startupMode] becomes 1 and
    adaptation runs; else if [startupMode = 1] and the counter exceeds 20,
    [startupMode] becomes 2 and adaptation runs; else if [startupMode = 2]
    and the counter exceeds 100, adaptation runs and [startupMode] stays 2;
    in every other case (so for [startupMode = 3] too) nothing else happens. *)
Theorem updatedCodeStatistics_schedule (pm : pointMetadata) (code n : Z) :
  0 ≤ code → commandStats pm !! Z.to_nat code = Some n →
  (∀ bs pm' bs', WriteCode pm code bs = Ok (pm', bs') →
     updatedCodeStatistics pm code = Ok pm') ∧
  (∀ bs pm' bs', ReadCode pm bs = Ok (code, pm', bs') →
     updatedCodeStatistics pm code = Ok pm') ∧
  let pm1 := counted pm code n in
  let cnt := commandsSentSinceLastChange pm1 in
  cnt = wrap_int32 (commandsSentSinceLastChange pm + 1) ∧
  commandStats pm1 = <[Z.to_nat code := wrap_byte (n + 1)]> (commandStats pm) ∧
  ∃ pm', updatedCodeStatistics pm code = Ok pm' ∧
    if decide (startupMode pm = 0 ∧ 5 < cnt) then
      startupMode pm' = 1 ∧ adaptCommands (set_startupMode 1 pm1) = Ok pm'
    else if decide (startupMode pm = 1 ∧ 20 < cnt) then
      startupMode pm' = 2 ∧ adaptCommands (set_startupMode 2 pm1) = Ok pm'
    else if decide (startupMode pm = 2 ∧ 100 < cnt) then
      startupMode pm' = 2 ∧ adaptCommands pm1 = Ok pm'
    else pm' = pm1.
Proof.
  intros Hc Hn.
  split; [intros bs pm' bs'; apply WriteCode_updates|].
  split; [intros bs pm' bs'; apply ReadCode_updates|].
  cbn zeta. split; [reflexivity|]. split; [reflexivity|].
  rewrite (updatedCodeStatistics_unfold pm code n Hc Hn). cbn zeta.
  change (startupMode (counted pm code n)) with (startupMode pm).
  set (pm1 := counted pm code n).
  set (cnt := commandsSentSinceLastChange pm1).
  assert (Hs : ∀ q, adaptCommands q = Ok (adapted q) ∧
                   startupMode (adapted q) = startupMode q)
    by (intros q; split; [apply adaptCommands_adapted|apply adapted_startupMode]).
  destruct (Z.eqb_spec (startupMode pm) 0) as [E0|E0];
    destruct (Z.eqb_spec (startupMode pm) 1) as [E1|E1];
    destruct (Z.eqb_spec (startupMode pm) 2) as [E2|E2]; try lia;
    destruct (Z.gtb_spec cnt 5); destruct (Z.gtb_spec cnt 20);
    destruct (Z.gtb_spec cnt 100); cbn [andb];
    (eexists; split; [reflexivity|]);
    repeat case_decide; try lia; try reflexivity;
    try rewrite E0; try rewrite E1;
    try change (wrap_int32 (0 + 1)) with 1;
    try change (wrap_int32 (1 + 1)) with 2;
    destruct (Hs pm1) as [A0 B0];
    destruct (Hs (set_startupMode 1 pm1)) as [A1 B1];
    destruct (Hs (set_startupMode 2 pm1)) as [A2 B2];
    rewrite ?A0, ?A1, ?A2;
    split; first [reflexivity | exact B1 | exact B2 | (rewrite B0; exact E2)].
Qed.

(** C1, as the claim words it, fails in the third stage: the encoder state
    [encoder_stage2] has [startupMode = 2] and 100 symbols counted, so coding
    one more symbol takes the counter past 100; adaptation runs (the counter
    is back at 0) but [startupMode] is still 2 afterwards, not 3. *)
Lemma schedule_third_stage_does_not_bump :
  startupMode encoder_stage2 = 2 ∧
  100 < commandsSentSinceLastChange encoder_stage2 + 1 ∧
  ∃ pm' bs', WriteCode encoder_stage2 20 [] = Ok (pm', bs') ∧
    commandsSentSinceLastChange pm' = 0 ∧
    startupMode pm' = 2 ∧ startupMode pm' ≠ 3.
Proof.
  split; [reflexivity|]. split; [reflexivity|].
  eexists _, _. split; [vm_compute; reflexivity|].
  cbn. repeat split. discriminate.
Qed.

(** [encoder_stage2] is the state of a fresh encoder that has written
    [Value1] 127 times. *)
Lemma encoder_stage2_reachable :
  ∃ bs, run (replicate 127 (Write 20)) (encoder0, []) = Ok (encoder_stage2, bs).
Proof. eexists. vm_compute. reflexivity. Qed.

Lemma updatedCodeStatistics_schedule_witness :
  0 ≤ 20 ∧ commandStats encoder_stage2 !! Z.to_nat 20 = Some 100 ∧
  ∃ pm', updatedCodeStatistics encoder_stage2 20 = Ok pm'.
Proof.
  split; [lia|]. split; [reflexivity|].
  destruct (updatedCodeStatistics_schedule encoder_stage2 20 100)
    as (_ & _ & _ & _ & pm' & H & _); [lia|reflexivity|].
  exists pm'. exact H.
Defined.

(** ** startupMode over a run *)

Lemma counted_fields pm code n :
  startupMode (counted pm code n) = startupMode pm ∧
  commandsSentSinceLastChange (counted pm code n)
    = wrap_int32 (commandsSentSinceLastChange pm + 1).
Proof. split; reflexivity. Qed.

Lemma updatedCodeStatistics_sched pm code pm' :
  sched_inv pm → updatedCodeStatistics pm code = Ok pm' →
  sched_inv pm' ∧ startupMode pm ≤ startupMode pm' ∧
  rank pm' = Z.max 0 (rank pm - 1).
Proof.
  intros Hinv H.
  destruct (updatedCodeStatistics_index _ _ _ H) as (Hc & n & Hn).
  rewrite (updatedCodeStatistics_unfold pm code n Hc Hn) in H. cbn zeta in H.
  destruct (counted_fields pm code n) as [Es Ec].
  rewrite Es, Ec in H.
  assert (Ew : wrap_int32 (commandsSentSinceLastChange pm + 1)
               = commandsSentSinceLastChange pm + 1).
  { apply wrap_int32_small. unfold sched_inv in Hinv. lia. }
  rewrite Ew in H, Ec.
  unfold sched_inv, rank in *.
  destruct (Z.eqb_spec (startupMode pm) 0) as [E0|E0];
    destruct (Z.eqb_spec (startupMode pm) 1) as [E1|E1];
    destruct (Z.eqb_spec (startupMode pm) 2) as [E2|E2]; try lia;
    destruct (Z.gtb_spec (commandsSentSinceLastChange pm + 1) 5);
    destruct (Z.gtb_spec (commandsSentSinceLastChange pm + 1) 20);
    destruct (Z.gtb_spec (commandsSentSinceLastChange pm + 1) 100);
    try lia; cbn [andb] in H; injection H as <-;
    rewrite ?adapted_startupMode, ?adapted_counter, ?Es, ?Ec;
    cbn [startupMode set_startupMode];
    rewrite ?E0, ?E1, ?E2;
    try change (wrap_int32 (0 + 1)) with 1;
    try change (wrap_int32 (1 + 1)) with 2; cbn; lia.
Qed.

Lemma step_sched c o c' :
  sched_inv c.1 → step c o = Ok c' →
  sched_inv c'.1 ∧ startupMode c.1 ≤ startupMode c'.1 ∧
  rank c'.1 = Z.max 0 (rank c.1 - 1).
Proof.
  intros Hinv H. destruct c as [pm bs], c' as [pm' bs'], o as [code|]; cbn in *.
  - eapply updatedCodeStatistics_sched; [exact Hinv|].
    eapply WriteCode_updates; exact H.
  - destruct (ReadCode pm bs) as [[[code pm1] bs1]|] eqn:E; [|discriminate].
    cbn in H. injection H as <- <-.
    eapply updatedCodeStatistics_sched; [exact Hinv|].
    eapply ReadCode_updates; exact E.
Qed.

Lemma run_sched ops : ∀ c c',
  sched_inv c.1 → run ops c = Ok c' →
  sched_inv c'.1 ∧ startupMode c.1 ≤ startupMode c'.1 ∧
  rank c'.1 = Z.max 0 (rank c.1 - Z.of_nat (length ops)).
Proof.
  induction ops as [|o ops IH]; intros c c' Hinv H; cbn [run] in H.
  - injection H as <-. cbn [length]. unfold sched_inv, rank in *.
    repeat case_match; lia.
  - destruct (step c o) as [c1|] eqn:E; [|discriminate]. cbn in H.
    destruct (step_sched _ _ _ Hinv E) as (I1 & M1 & R1).
    destruct (IH _ _ I1 H) as (I2 & M2 & R2).
    split; [exact I2|]. split; [lia|].
    rewrite R2, R1. cbn [length]. lia.
Qed.

Lemma sched_inv_fresh w r r5 : sched_inv (newPointMetadata w r r5).
Proof. left. cbn. lia. Qed.

Lemma sched_inv_bounds pm :
  sched_inv pm → 0 ≤ startupMode pm ≤ 2 ∧ (rank pm = 0 → startupMode pm = 2).
Proof. unfold sched_inv, rank. intros H. repeat case_match; lia. Qed.

(** C2, as the claim words it, fails: [startupMode] never reaches 3. No run
    of [WriteCode]/[ReadCode] calls from a fresh encoder state ends with
    [startupMode = 3]. *)
Lemma startupMode_never_reaches_3 :
  ¬ ∃ ops bs0 pm bs,
      run ops (encoder0, bs0) = Ok (pm, bs) ∧ startupMode pm = 3.
Proof.
  intros (ops & bs0 & pm & bs & H & E).
  destruct (run_sched ops (encoder0, bs0) (pm, bs)) as (I & _ & _);
    [apply sched_inv_fresh|exact H|].
  apply sched_inv_bounds in I. cbn in I. lia.
Qed.

(** C2, as the code has it: over every run of [WriteCode]/[ReadCode] calls
    that starts from a freshly constructed state, [startupMode] is
    non-decreasing, always lies in {0,1,2} (so in {0,1,2,3}), and saturates
    at 2: it is 2 once 27 symbols have been coded and never exceeds it. *)
Theorem startupMode_monotone_saturates_at_2
    (w : option writeBitsFn) (r r5 : option readFn) (bs0 : BitStream)
    (ops1 ops2 : list op) (pm1 pm2 : pointMetadata) (bs1 bs2 : BitStream) :
  run ops1 (newPointMetadata w r r5, bs0) = Ok (pm1, bs1) →
  run ops2 (pm1, bs1) = Ok (pm2, bs2) →
  0 ≤ startupMode pm1 ∧ startupMode pm1 ≤ startupMode pm2 ∧ startupMode pm2 ≤ 2 ∧
  ((27 ≤ length ops1)%nat → startupMode pm1 = 2).
Proof.
  intros H1 H2.
  destruct (run_sched ops1 (newPointMetadata w r r5, bs0) (pm1, bs1)
              (sched_inv_fresh w r r5) H1) as (I1 & _ & R1).
  destruct (run_sched ops2 (pm1, bs1) (pm2, bs2) I1 H2) as (I2 & M2 & _).
  cbn [fst] in *.
  destruct (sched_inv_bounds _ I1) as [B1 S1].
  destruct (sched_inv_bounds _ I2) as [B2 _].
  repeat split; try lia.
  intros Hlen. apply S1. rewrite R1. cbn. lia.
Qed.

Lemma startupMode_monotone_saturates_at_2_witness :
  ∃ pm1 bs1 pm2 bs2,
    run (replicate 30 (Write 20)) (encoder0, []) = Ok (pm1, bs1) ∧
    run [Write 7] (pm1, bs1) = Ok (pm2, bs2) ∧
    startupMode pm1 = 2 ∧ startupMode pm2 = 2.
Proof.
  destruct (run (replicate 30 (Write 20)) (encoder0, [])) as [[pm1 bs1]|p] eqn:H1;
    [|vm_compute in H1; discriminate].
  destruct (run [Write 7] (pm1, bs1)) as [[pm2 bs2]|p] eqn:H2;
    [|vm_compute in H1; injection H1 as <- <-; vm_compute in H2; discriminate].
  exists pm1, bs1, pm2, bs2.
  split; [reflexivity|]. split; [exact H2|].
  destruct (startupMode_monotone_saturates_at_2 (Some bs_writeBits) None None []
              (replicate 30 (Write 20)) [Write 7] pm1 pm2 bs1 bs2 H1 H2)
    as (_ & Hle & Hmax & Hsat).
  assert (E1 : startupMode pm1 = 2) by (apply Hsat; cbn; lia).
  split; [exact E1|]. lia.
Defined.

(** ** WriteCode and ReadCode *)

Lemma below32_elim (P : Z → Prop) :
  (∀ k : nat, (k < 32)%nat → P (Z.of_nat k)) → ∀ S, 0 ≤ S < 32 → P S.
Proof.
  intros HP S HS. rewrite <- (Z2Nat.id S) by lia. apply HP. lia.
Qed.

Lemma symbol_bits S :
  0 ≤ S < 32 →
  bits_value (raw5 S) = S ∧
  Z.testbit S 5 = false ∧ Z.testbit S 6 = false ∧ Z.testbit S 7 = false.
Proof.
  revert S. apply below32_elim. intros k Hk.
  do 32 (destruct k as [|k]; [vm_compute; auto|]). lia.
Qed.

Lemma updatedCodeStatistics_total pm code :
  0 ≤ code < Z.of_nat (length (commandStats pm)) →
  ∃ pm', updatedCodeStatistics pm code = Ok pm'.
Proof.
  intros Hc.
  destruct (lookup_lt_is_Some_2 (commandStats pm) (Z.to_nat code)) as [n Hn]; [lia|].
  rewrite (updatedCodeStatistics_unfold pm code n) by (lia || exact Hn).
  cbn zeta. repeat case_match; eauto.
Qed.

Lemma WriteCode_emits pm S bs :
  writeBits pm = Some bs_writeBits → 1 ≤ mode pm ≤ 4 → 0 ≤ S < 32 →
  length (commandStats pm) = 32%nat →
  ∃ pm', WriteCode pm S bs = Ok (pm', bs ++ spelling pm S) ∧
         updatedCodeStatistics pm S = Ok pm'.
Proof.
  intros Hw Hm HS Hlen.
  destruct (updatedCodeStatistics_total pm S) as [pm' Hu]; [lia|].
  exists pm'. split; [|exact Hu].
  destruct (symbol_bits S HS) as (_ & T5 & T6 & T7).
  unfold WriteCode, spelling, call_writeBits. rewrite Hw.
  assert (Hmode : mode pm = 1 ∨ mode pm = 2 ∨ mode pm = 3 ∨ mode pm = 4) by lia.
  assert (B5 : bits_msb (Z.to_nat 5) S = raw5 S) by reflexivity.
  assert (B6 : bits_msb (Z.to_nat 6) S = false :: raw5 S)
    by (rewrite <- T5; reflexivity).
  assert (B7 : bits_msb (Z.to_nat 7) S = false :: false :: raw5 S)
    by (rewrite <- T5 at 2; rewrite <- T6 at 1; reflexivity).
  assert (B8 : bits_msb (Z.to_nat 8) S = false :: false :: false :: raw5 S)
    by (rewrite <- T5 at 3; rewrite <- T6 at 2; rewrite <- T7 at 1; reflexivity).
  destruct Hmode as [-> | [-> | [-> | ->]]];
    repeat case_match; unfold bs_writeBits; rewrite ?B5, ?B6, ?B7, ?B8;
    cbn [mbind result_bind]; rewrite Hu; reflexivity.
Qed.

Lemma ReadCode_reads pm S rest pm' :
  readBit pm = Some bs_readBit → readBits5 pm = Some bs_readBits5 →
  1 ≤ mode pm ≤ 4 → 0 ≤ S < 32 →
  updatedCodeStatistics pm S = Ok pm' →
  ReadCode pm (spelling pm S ++ rest) = Ok (S, pm', rest).
Proof.
  intros Hr Hr5 Hm HS Hu.
  destruct (symbol_bits S HS) as (Hv & _).
  assert (H5 : ∀ tl, bs_readBits5 (raw5 S ++ tl) = Ok (S, tl)).
  { intros tl. rewrite <- Hv at 2. reflexivity. }
  unfold ReadCode, spelling, call_readBit, call_readBits5. rewrite Hr, Hr5.
  assert (Hmode : mode pm = 1 ∨ mode pm = 2 ∨ mode pm = 3 ∨ mode pm = 4) by lia.
  destruct Hmode as [-> | [-> | [-> | ->]]].
  - rewrite H5. cbn. rewrite Hu. reflexivity.
  - destruct (Z.eqb_spec S (mode21 pm)) as [<-|?]; cbn [app bs_readBit mbind result_bind
      Z.b2z Z.eqb Pos.eqb]; rewrite ?H5; cbn; rewrite Hu; reflexivity.
  - destruct (Z.eqb_spec S (mode31 pm)) as [<-|?];
      [|destruct (Z.eqb_spec S (mode301 pm)) as [<-|?]];
      cbn [app bs_readBit mbind result_bind Z.b2z Z.eqb Pos.eqb];
      rewrite ?H5; cbn; rewrite Hu; reflexivity.
  - destruct (Z.eqb_spec S (mode41 pm)) as [<-|?];
      [|destruct (Z.eqb_spec S (mode401 pm)) as [<-|?];
        [|destruct (Z.eqb_spec S (mode4001 pm)) as [<-|?]]];
      cbn [app bs_readBit mbind result_bind Z.b2z Z.eqb Pos.eqb];
      rewrite ?H5; cbn; rewrite Hu; reflexivity.
Qed.

(** C6: for every symbol [S] in 0..31, [WriteCode] appends to the stream
    exactly the spelling of the current mode's prefix template
    ([spelling]): mode 1 writes the five raw bits of [S]; mode 2 writes [1]
    on the hot slot, else [0] and the five raw bits; mode 3 writes [1] on the
    first hot slot, [01] on the second, else [00] and the five raw bits;
    mode 4 writes [1], [01], [001] on its three hot slots, else [000] and the
    five raw bits. *)
Theorem WriteCode_spelling (pm : pointMetadata) (S : Z) (bs : BitStream) :
  writeBits pm = Some bs_writeBits → 1 ≤ mode pm ≤ 4 → 0 ≤ S < 32 →
  length (commandStats pm) = 32%nat →
  ∃ pm', WriteCode pm S bs = Ok (pm', bs ++ spelling pm S).
Proof.
  intros Hw Hm HS Hlen.
  destruct (WriteCode_emits pm S bs Hw Hm HS Hlen) as (pm' & H & _).
  exists pm'. exact H.
Qed.

Lemma WriteCode_spelling_witness :
  ∃ pm', WriteCode encoder0 7 [] = Ok (pm', [false; false; false; false; false; true; true; true]).
Proof.
  apply (WriteCode_spelling encoder0 7 []); [reflexivity|cbn; lia|lia|reflexivity].
Defined.

Lemma same_coder_adapted a b : same_coder a b → same_coder (adapted a) (adapted b).
Proof.
  destruct a, b. unfold same_coder. cbn.
  intros (-> & -> & -> & -> & -> & -> & -> & -> & -> & ->).
  unfold adapted. cbn. destruct (scanStats _ _ _) as [zeroed s].
  repeat case_match; cbn; repeat split.
Qed.

Lemma same_coder_counted a b code n :
  same_coder a b → same_coder (counted a code n) (counted b code n).
Proof.
  destruct a, b. unfold same_coder. cbn.
  intros (-> & -> & -> & -> & -> & -> & -> & -> & -> & ->).
  repeat split.
Qed.

Lemma same_coder_set_startupMode a b v :
  same_coder a b → same_coder (set_startupMode v a) (set_startupMode v b).
Proof.
  destruct a, b. unfold same_coder. cbn.
  intros (-> & -> & -> & -> & -> & -> & -> & -> & -> & ->).
  repeat split.
Qed.

Lemma updatedCodeStatistics_same a b code a' :
  same_coder a b → updatedCodeStatistics a code = Ok a' →
  ∃ b', updatedCodeStatistics b code = Ok b' ∧ same_coder a' b'.
Proof.
  intros Hs H.
  destruct (updatedCodeStatistics_index _ _ _ H) as (Hc & n & Hn).
  assert (Hn' : commandStats b !! Z.to_nat code = Some n).
  { destruct Hs as (_ & _ & _ & _ & _ & _ & _ & <- & _). exact Hn. }
  rewrite (updatedCodeStatistics_unfold a code n Hc Hn) in H.
  rewrite (updatedCodeStatistics_unfold b code n Hc Hn'). cbn zeta in *.
  pose proof (same_coder_counted a b code n Hs) as Hs1.
  assert (Su : startupMode (counted a code n) = startupMode (counted b code n))
    by apply Hs1.
  assert (Cn : commandsSentSinceLastChange (counted a code n)
               = commandsSentSinceLastChange (counted b code n)) by apply Hs1.
  rewrite <- Su, <- Cn.
  repeat case_match; injection H as <-; eexists; (split; [reflexivity|]);
    auto using same_coder_adapted, same_coder_set_startupMode.
Qed.

(** C4: for any two states that agree on mode, hot slots, histogram, counter
    and [startupMode] (the first wired to the stream's writer, the second to
    its readers) and every symbol [code] in 0..31: [WriteCode] returns, and
    [ReadCode] applied to exactly the bits it emitted (whatever follows them
    in the stream) returns [code], consumes just those bits, and leaves the
    two states agreeing on the same fields. *)
Theorem WriteCode_ReadCode_lockstep (enc dec : pointMetadata) (code : Z)
    (bs0 : BitStream) :
  writeBits enc = Some bs_writeBits →
  readBit dec = Some bs_readBit → readBits5 dec = Some bs_readBits5 →
  same_coder enc dec →
  1 ≤ mode enc ≤ 4 → length (commandStats enc) = 32%nat →
  0 ≤ code < 32 →
  ∃ bits enc', WriteCode enc code bs0 = Ok (enc', bs0 ++ bits) ∧
    ∀ rest, ∃ dec', ReadCode dec (bits ++ rest) = Ok (code, dec', rest) ∧
                    same_coder enc' dec'.
Proof.
  intros Hw Hr Hr5 Hs Hm Hlen Hc.
  destruct (WriteCode_emits enc code bs0 Hw Hm Hc Hlen) as (enc' & HW & Hu).
  exists (spelling enc code), enc'. split; [exact HW|].
  intros rest.
  destruct (updatedCodeStatistics_same enc dec code enc' Hs Hu) as (dec' & Hu' & Hs').
  exists dec'. split; [|exact Hs'].
  assert (E : spelling enc code = spelling dec code).
  { destruct Hs as (M & M21 & M31 & M301 & M41 & M401 & M4001 & _).
    unfold spelling. rewrite M, M21, M31, M301, M41, M401, M4001. reflexivity. }
  rewrite E. apply ReadCode_reads; try assumption.
  destruct Hs as (<- & _). exact Hm.
Qed.

Lemma WriteCode_ReadCode_lockstep_witness :
  ∃ bits enc', WriteCode encoder0 7 [] = Ok (enc', [] ++ bits) ∧
    ∀ rest, ∃ dec', ReadCode decoder0 (bits ++ rest) = Ok (7, dec', rest) ∧
                    same_coder enc' dec'.
Proof.
  apply (WriteCode_ReadCode_lockstep encoder0 decoder0 7 []);
    [reflexivity|reflexivity|reflexivity|repeat split|cbn; lia|reflexivity|lia].
Defined.

(** ** The scan of the histogram *)

Lemma scanStats_zeroed l : ∀ i s, (scanStats i l s).1 = replicate (length l) 0.
Proof.
  induction l as [|x l IH]; intros i s; cbn; [reflexivity|].
  specialize (IH (i + 1) (scanStep i x s)).
  destruct (scanStats (i + 1) l (scanStep i x s)) as [zeroed s']. cbn in *.
  rewrite IH. reflexivity.
Qed.

(** Loop invariants: a property of the locals that holds before the first
    iteration and is kept by the iteration at every index holds on exit. *)
Lemma scanStats_invariant (stats : list Z) (Inv : nat → scan → Prop) :
  Inv 0%nat scan0 →
  (∀ i x s, stats !! i = Some x → Inv i s → Inv (S i) (scanStep (Z.of_nat i) x s)) →
  Inv (length stats) (scanStats 0 stats scan0).2.
Proof.
  intros H0 Hstep.
  assert (G : ∀ l pre s, stats = pre ++ l → Inv (length pre) s →
              Inv (length stats) (scanStats (Z.of_nat (length pre)) l s).2).
  { induction l as [|x l IH]; intros pre s E HI.
    - cbn. rewrite E, app_nil_r. exact HI.
    - cbn [scanStats].
      specialize (IH (pre ++ [x]) (scanStep (Z.of_nat (length pre)) x s)).
      rewrite length_app in IH. cbn [length] in IH.
      replace (Z.of_nat (length pre + 1)) with (Z.of_nat (length pre) + 1) in IH by lia.
      destruct (scanStats (Z.of_nat (length pre) + 1) l
                  (scanStep (Z.of_nat (length pre)) x s)) as [zeroed s'].
      cbn [snd] in *. apply IH.
      + rewrite E, <- app_assoc. reflexivity.
      + replace (length pre + 1)%nat with (S (length pre)) by lia.
        apply Hstep; [|exact HI].
        rewrite E. apply list_lookup_middle. reflexivity. }
  apply (G stats [] scan0); [reflexivity|exact H0].
Qed.

Lemma stats_wf_spec stats :
  stats_wf stats = true ↔
  length stats = 32%nat ∧ ∀ i x, stats !! i = Some x → 0 ≤ x < 256.
Proof.
  unfold stats_wf. rewrite andb_true_iff, Nat.eqb_eq.
  rewrite <- Is_true_true, forallb_True, Forall_lookup.
  split; intros [Hl Hb]; (split; [exact Hl|]); intros i x Hx;
    specialize (Hb i x Hx); cbn in *.
  - apply Is_true_true, andb_true_iff in Hb. lia.
  - apply Is_true_true, andb_true_iff. lia.
Qed.

Lemma sum_snoc l x : sum (l ++ [x]) = sum l + x.
Proof. unfold sum. induction l as [|y l IH]; cbn; lia. Qed.

Lemma counts_inv_step stats i x s :
  stats_wf stats = true → stats !! i = Some x →
  counts_inv stats i s → counts_inv stats (S i) (scanStep (Z.of_nat i) x s).
Proof.
  intros Hwf Hx (H3 & H32 & H21 & H1 & Ht & Hsum & Hub & rest & Hp & Hrest).
  apply stats_wf_spec in Hwf as [Hlen Hb].
  pose proof (Hb i x Hx) as Hxb.
  pose proof (lookup_lt_Some _ _ _ Hx) as Hi.
  unfold counts_inv. rewrite (take_S_r _ _ _ Hx).
  assert (Hw : wrap_int32 (total s + x) = total s + x)
    by (apply wrap_int32_small; lia).
  assert (Hp' : 0 :: 0 :: 0 :: take i stats ++ [x]
                ≡ₚ x :: count1 s :: count2 s :: count3 s :: rest).
  { rewrite <- Hp. solve_Permutation. }
  unfold scanStep.
  destruct (Z.gtb_spec x (count3 s)); [destruct (Z.gtb_spec x (count1 s));
    [|destruct (Z.gtb_spec x (count2 s))]|];
    cbn [count1 count2 count3 total]; rewrite Hw, sum_snoc;
    (repeat (split; [lia|])).
  - exists (count3 s :: rest). split; [exact Hp'|].
    constructor; [lia|]. eapply Forall_impl; [exact Hrest|]. cbn. lia.
  - exists (count3 s :: rest). split; [rewrite Hp'; solve_Permutation|].
    constructor; [lia|]. eapply Forall_impl; [exact Hrest|]. cbn. lia.
  - exists (count3 s :: rest). split; [rewrite Hp'; solve_Permutation|].
    constructor; [lia|]. eapply Forall_impl; [exact Hrest|]. cbn. lia.
  - exists (x :: rest). split; [rewrite Hp'; solve_Permutation|].
    constructor; [lia|exact Hrest].
Qed.

Lemma counts_inv_final stats :
  stats_wf stats = true →
  counts_inv stats (length stats) (scanStats 0 stats scan0).2.
Proof.
  intros Hwf. apply (scanStats_invariant stats (counts_inv stats)).
  - unfold counts_inv. rewrite take_0. cbn.
    repeat (split; [lia|]).
    exists []. split; [reflexivity|constructor].
  - intros i x s Hx. apply counts_inv_step; assumption.
Qed.

Lemma strip_zero (l rest : list Z) c1 c2 c3 :
  0 :: l ≡ₚ c1 :: c2 :: c3 :: rest → c1 ≠ 0 → c2 ≠ 0 → c3 ≠ 0 →
  ∃ r, rest ≡ₚ 0 :: r ∧ l ≡ₚ c1 :: c2 :: c3 :: r.
Proof.
  intros Hp N1 N2 N3.
  assert (Hin : 0 ∈ c1 :: c2 :: c3 :: rest) by (rewrite <- Hp; left).
  rewrite !elem_of_cons in Hin.
  destruct Hin as [?|[?|[?|Hin]]]; try congruence.
  apply elem_of_Permutation in Hin as [r Hr].
  exists r. split; [exact Hr|].
  apply (Permutation_cons_inv (a := 0)).
  rewrite Hp, Hr. solve_Permutation.
Qed.

Lemma top3_unpad (stats rest : list Z) c1 c2 c3 :
  (3 ≤ length stats)%nat → (∀ x, x ∈ stats → 0 ≤ x) →
  0 ≤ c3 → c3 ≤ c2 → c2 ≤ c1 →
  0 :: 0 :: 0 :: stats ≡ₚ c1 :: c2 :: c3 :: rest →
  Forall (λ y, y ≤ c3) rest →
  ∃ rest', stats ≡ₚ c1 :: c2 :: c3 :: rest' ∧ Forall (λ y, y ≤ c3) rest'.
Proof.
  intros Hlen Hnn H3 H32 H21 Hp Hrest.
  assert (Hr : ∃ r, rest ≡ₚ 0 :: 0 :: 0 :: r).
  { destruct (decide (c3 = 0)) as [E|N].
    - assert (Hz : Forall (λ y, y = 0) rest).
      { rewrite Forall_forall in Hrest |- *. intros y Hy.
        specialize (Hrest y Hy). cbn in Hrest.
        assert (Hy' : y ∈ 0 :: 0 :: 0 :: stats)
          by (rewrite Hp; do 3 right; exact Hy).
        rewrite !elem_of_cons in Hy'.
        destruct Hy' as [?|[?|[?|Hy']]]; try lia.
        specialize (Hnn y Hy'). lia. }
      apply Permutation_length in Hp. cbn in Hp.
      destruct rest as [|a [|b [|c r]]]; cbn in Hp; try lia.
      apply Forall_cons in Hz as [-> Hz].
      apply Forall_cons in Hz as [-> Hz].
      apply Forall_cons in Hz as [-> Hz].
      exists r. reflexivity.
    - destruct (strip_zero _ _ _ _ _ Hp) as (r1 & E1 & Hp1); try lia.
      destruct (strip_zero _ _ _ _ _ Hp1) as (r2 & E2 & Hp2); try lia.
      destruct (strip_zero _ _ _ _ _ Hp2) as (r3 & E3 & Hp3); try lia.
      exists r3. rewrite E1, E2, E3. reflexivity. }
  destruct Hr as [r Hr]. exists r. split.
  - apply (Permutation_app_inv_l [0; 0; 0]). cbn [app].
    rewrite Hp, Hr. solve_Permutation.
  - rewrite Hr in Hrest.
    apply Forall_cons in Hrest as [_ Hrest].
    apply Forall_cons in Hrest as [_ Hrest].
    apply Forall_cons in Hrest as [_ Hrest]. exact Hrest.
Qed.

Lemma codes_inv_step stats i x s :
  stats_wf stats = true → stats !! i = Some x →
  counts_inv stats i s → codes_inv stats i s →
  codes_inv stats (S i) (scanStep (Z.of_nat i) x s).
Proof.
  intros Hwf Hx (H3 & H32 & H21 & _) (B1 & L1 & B2 & L2 & B3 & L3 & C1 & C2 & C3).
  apply stats_wf_spec in Hwf as [Hlen Hb].
  pose proof (lookup_lt_Some _ _ _ Hx) as Hi.
  assert (Hw : wrap_byte (Z.of_nat i) = Z.of_nat i)
    by (apply wrap_byte_small; lia).
  assert (Hxi : stats !! Z.to_nat (Z.of_nat i) = Some x)
    by (rewrite Nat2Z.id; exact Hx).
  assert (Hnew : ∀ j y, (j < S i)%nat → stats !! j = Some y →
                  (j < i)%nat ∨ (j = i ∧ y = x)).
  { intros j y Hj Hy. destruct (decide (j = i)) as [->|]; [|lia].
    right. split; [reflexivity|congruence]. }
  unfold codes_inv, scanStep. rewrite Hw.
  destruct (Z.gtb_spec x (count3 s)); [destruct (Z.gtb_spec x (count1 s));
    [|destruct (Z.gtb_spec x (count2 s))]|];
    cbn [code1 code2 code3 count1 count2 count3];
    split_and!;
    try (intros Hpos; first [exact Hxi | apply L1; lia | apply L2; lia
                            | apply L3; lia | lia]);
    intros j y Hj Hy;
    (destruct (Hnew j y Hj Hy) as [Hlt|[-> ->]];
     [pose proof (C1 j y Hlt Hy); pose proof (C2 j y Hlt Hy);
      pose proof (C3 j y Hlt Hy)|]); lia.
Qed.

Lemma codes_inv_final stats :
  stats_wf stats = true →
  codes_inv stats (length stats) (scanStats 0 stats scan0).2.
Proof.
  intros Hwf.
  apply (scanStats_invariant stats (λ i s, counts_inv stats i s ∧ codes_inv stats i s)).
  - split.
    + unfold counts_inv. rewrite take_0. cbn.
      repeat (split; [lia|]). exists []. split; [reflexivity|constructor].
    + unfold codes_inv. cbn. split_and!; intros; lia.
  - intros i x s Hx [Hc Hi]. split.
    + apply counts_inv_step; assumption.
    + apply codes_inv_step; assumption.
Qed.

(** C5, as the claim words it, fails on a histogram with fewer than three
    symbols counted: with only symbol 0 counted the scan ends with
    [code1 = 0], [code2 = 0], [code3 = 1], where the second rank repeats the
    index of the first instead of taking the lowest remaining index. *)
Lemma top3_not_lex_least_on_single :
  let s := (scanStats 0 stats_single scan0).2 in
  (code1 s, code2 s, code3 s) = (0, 0, 1) ∧
  ¬ lex_least_top3 stats_single (code1 s) (code2 s) (code3 s).
Proof.
  cbn zeta. split; [reflexivity|].
  intros (c1 & c2 & c3 & _ & (Hex & _) & _).
  apply Hex. change (code2 (scanStats 0 stats_single scan0).2) with 0.
  change (code1 (scanStats 0 stats_single scan0).2) with 0. left.
Qed.

(** C5, as the code has it: the scan runs in ascending index order and on
    equal counts the lower index keeps the higher rank. Every rank whose
    count is positive holds the lowest index, among those not held by a
    higher rank, whose entry is maximal among them; so when at least three
    symbols have been counted, [(code1, code2, code3)] is the
    lexicographically least choice. A rank whose count is 0 holds no
    meaningful index. The selection is computed from the histogram alone. *)
Theorem top3_selection_by_index (stats : list Z) :
  stats_wf stats = true →
  let s := (scanStats 0 stats scan0).2 in
  (0 < count1 s → least_max_excluding stats [] (code1 s) (count1 s)) ∧
  (0 < count2 s → least_max_excluding stats [code1 s] (code2 s) (count2 s)) ∧
  (0 < count3 s →
     least_max_excluding stats [code1 s; code2 s] (code3 s) (count3 s)) ∧
  (0 < count2 s → count1 s = count2 s → code1 s < code2 s) ∧
  (0 < count3 s → count2 s = count3 s → code2 s < code3 s) ∧
  (∀ j1 j2 j3 y1 y2 y3,
     j1 ≠ j2 → j1 ≠ j3 → j2 ≠ j3 →
     stats !! j1 = Some y1 → stats !! j2 = Some y2 → stats !! j3 = Some y3 →
     0 < y1 → 0 < y2 → 0 < y3 →
     lex_least_top3 stats (code1 s) (code2 s) (code3 s)).
Proof.
  intros Hwf. cbn zeta.
  pose proof (counts_inv_final stats Hwf) as (H3 & H32 & H21 & _).
  pose proof (codes_inv_final stats Hwf)
    as (B1 & L1 & B2 & L2 & B3 & L3 & C1 & C2 & C3).
  set (s := (scanStats 0 stats scan0).2) in *.
  assert (R1 : 0 < count1 s → least_max_excluding stats [] (code1 s) (count1 s)).
  { intros P1. split; [apply not_elem_of_nil|]. split; [apply B1; lia|].
    split; [apply L1; lia|]. intros j y Hy _.
    pose proof (C1 j y (lookup_lt_Some _ _ _ Hy) Hy). lia. }
  assert (R2 : 0 < count2 s →
               least_max_excluding stats [code1 s] (code2 s) (count2 s)).
  { intros P2. split; [rewrite list_elem_of_singleton; apply B2; lia|].
    split; [apply B2; lia|]. split; [apply L2; lia|]. intros j y Hy Hex.
    rewrite list_elem_of_singleton in Hex.
    pose proof (C2 j y (lookup_lt_Some _ _ _ Hy) Hy). lia. }
  assert (R3 : 0 < count3 s →
               least_max_excluding stats [code1 s; code2 s] (code3 s) (count3 s)).
  { intros P3. split.
    { rewrite !elem_of_cons, elem_of_nil. specialize (B3 P3). lia. }
    split; [apply B3; lia|]. split; [apply L3; lia|]. intros j y Hy Hex.
    rewrite !elem_of_cons, elem_of_nil in Hex.
    pose proof (C3 j y (lookup_lt_Some _ _ _ Hy) Hy). lia. }
  split_and!; try assumption.
  - intros P2 E.
    specialize (L2 P2). specialize (B2 P2).
    pose proof (C1 (Z.to_nat (code2 s)) (count2 s)
                  (lookup_lt_Some _ _ _ L2) L2). lia.
  - intros P3 E.
    specialize (L3 P3). specialize (B3 P3).
    pose proof (C2 (Z.to_nat (code3 s)) (count3 s)
                  (lookup_lt_Some _ _ _ L3) L3). lia.
  - intros j1 j2 j3 y1 y2 y3 N12 N13 N23 Y1 Y2 Y3 P1 P2 P3.
    assert (P : 0 < count3 s).
    { pose proof (C3 j1 y1 (lookup_lt_Some _ _ _ Y1) Y1).
      pose proof (C3 j2 y2 (lookup_lt_Some _ _ _ Y2) Y2).
      pose proof (C3 j3 y3 (lookup_lt_Some _ _ _ Y3) Y3). lia. }
    exists (count1 s), (count2 s), (count3 s).
    split_and!; [apply R1|apply R2|apply R3]; lia.
Qed.

Lemma top3_selection_by_index_witness :
  stats_wf stats_tied = true ∧ lex_least_top3 stats_tied 0 1 2.
Proof.
  split; [reflexivity|].
  pose proof (top3_selection_by_index stats_tied eq_refl) as (_ & _ & _ & _ & _ & H).
  exact (H 0%nat 1%nat 2%nat 5 5 5 ltac:(lia) ltac:(lia) ltac:(lia)
           eq_refl eq_refl eq_refl ltac:(lia) ltac:(lia) ltac:(lia)).
Defined.

(** ** Mode selection *)

Lemma adapted_fields pm :
  let s := (scanStats 0 (commandStats pm) scan0).2 in
  let a := adapted pm in
  commandStats a = replicate (length (commandStats pm)) 0 ∧
  commandsSentSinceLastChange a = 0 ∧
  (mode a, (mode21 a, mode31 a, mode301 a, mode41 a, mode401 a, mode4001 a)) =
    if minSize s =? mode1Size s then
      (1, (mode21 pm, mode31 pm, mode301 pm, mode41 pm, mode401 pm, mode4001 pm))
    else if minSize s =? mode2Size s then
      (2, (code1 s, mode31 pm, mode301 pm, mode41 pm, mode401 pm, mode4001 pm))
    else if minSize s =? mode3Size s then
      (3, (mode21 pm, code1 s, code2 s, mode41 pm, mode401 pm, mode4001 pm))
    else
      (4, (mode21 pm, mode31 pm, mode301 pm, code1 s, code2 s, code3 s)).
Proof.
  cbn zeta. unfold adapted.
  pose proof (scanStats_zeroed (commandStats pm) 0 scan0) as Hz.
  destruct (scanStats 0 (commandStats pm) scan0) as [zeroed s]. cbn [fst snd] in *.
  subst zeroed. repeat case_match; repeat split.
Qed.

(** C3: at every adaptation, with [T] the histogram's total and
    [c1 >= c2 >= c3] the counts of its three most frequent symbols, the mode
    [adaptCommands] installs minimises [size] over the four modes, and no
    lower-numbered mode has the same size; the hot slots the installed mode
    uses are indices of distinct symbols whose counts are [c1], [c2], [c3]
    in that order, the other slots keep their values; every histogram entry
    is zeroed and [commandsSentSinceLastChange] is 0. *)
Theorem adaptCommands_installs_minimal_mode (pm : pointMetadata) :
  stats_wf (commandStats pm) = true →
  ∃ c1 c2 c3 rest h1 h2 h3 pm',
    commandStats pm ≡ₚ c1 :: c2 :: c3 :: rest ∧
    c3 ≤ c2 ∧ c2 ≤ c1 ∧ Forall (λ y, y ≤ c3) rest ∧
    adaptCommands pm = Ok pm' ∧
    let T := sum (commandStats pm) in
    let m := mode pm' in
    1 ≤ m ≤ 4 ∧
    (∀ m', 1 ≤ m' ≤ 4 → size m T c1 c2 c3 ≤ size m' T c1 c2 c3) ∧
    (∀ m', 1 ≤ m' < m → size m T c1 c2 c3 < size m' T c1 c2 c3) ∧
    (2 ≤ m → 0 ≤ h1 ∧ commandStats pm !! Z.to_nat h1 = Some c1) ∧
    (3 ≤ m → 0 ≤ h2 ∧ commandStats pm !! Z.to_nat h2 = Some c2 ∧ h2 ≠ h1) ∧
    (4 ≤ m → 0 ≤ h3 ∧ commandStats pm !! Z.to_nat h3 = Some c3 ∧
             h3 ≠ h1 ∧ h3 ≠ h2) ∧
    (mode21 pm', mode31 pm', mode301 pm', mode41 pm', mode401 pm', mode4001 pm') =
      match m with
      | 1 => (mode21 pm, mode31 pm, mode301 pm, mode41 pm, mode401 pm, mode4001 pm)
      | 2 => (h1, mode31 pm, mode301 pm, mode41 pm, mode401 pm, mode4001 pm)
      | 3 => (mode21 pm, h1, h2, mode41 pm, mode401 pm, mode4001 pm)
      | _ => (mode21 pm, mode31 pm, mode301 pm, h1, h2, h3)
      end ∧
    commandStats pm' = replicate 32 0 ∧
    commandsSentSinceLastChange pm' = 0.
Proof.
  intros Hwf.
  pose proof (counts_inv_final _ Hwf)
    as (H3 & H32 & H21 & H1 & Ht & Hsum & Hub & rest & Hp & Hrest).
  pose proof (codes_inv_final _ Hwf) as (B1 & L1 & B2 & L2 & B3 & L3 & _).
  pose proof (adapted_fields pm) as (Hz & Hcnt & Hmode). cbn zeta in Hmode.
  pose proof (minSize_spec (scanStats 0 (commandStats pm) scan0).2) as Hmin.
  unfold mode1Size, mode2Size, mode3Size, mode4Size in Hmode, Hmin.
  set (s := (scanStats 0 (commandStats pm) scan0).2) in *.
  pose proof Hwf as Hwf'. apply stats_wf_spec in Hwf' as [Hlen Hb].
  rewrite take_ge in Ht, Hp by lia. rewrite Hlen in Hub, Hz.
  destruct (top3_unpad (commandStats pm) rest (count1 s) (count2 s) (count3 s))
    as (rest' & Hp' & Hrest'); try assumption; try lia.
  { intros x Hx. apply list_elem_of_lookup in Hx as [i Hi].
    specialize (Hb i x Hi). lia. }
  exists (count1 s), (count2 s), (count3 s), rest',
         (code1 s), (code2 s), (code3 s), (adapted pm).
  split; [exact Hp'|]. split; [exact H32|]. split; [exact H21|].
  split; [exact Hrest'|]. split; [apply adaptCommands_adapted|].
  cbn zeta. rewrite <- Ht.
  rewrite !wrap_int32_small in Hmode by lia.
  rewrite !wrap_int32_small in Hmin by lia.
  assert (Hall : ∀ m' (P : Z → Prop), 1 ≤ m' ≤ 4 →
                  P 1 → P 2 → P 3 → P 4 → P m').
  { intros m' P Hm' P1 P2 P3 P4.
    assert (E : m' = 1 ∨ m' = 2 ∨ m' = 3 ∨ m' = 4) by lia.
    destruct E as [-> | [-> | [-> | ->]]]; assumption. }
  destruct (Z.eqb_spec (minSize s) (total s * 5)) as [E1|N1];
    [|destruct (Z.eqb_spec (minSize s)
                 (count1 s * 1 + (total s - count1 s) * 6)) as [E2|N2];
      [|destruct (Z.eqb_spec (minSize s)
                   (count1 s * 1 + count2 s * 2
                    + (total s - count1 s - count2 s) * 7)) as [E3|N3]]];
    injection Hmode as Hm H21' H31' H301' H41' H401' H4001';
    rewrite Hm, H21', H31', H301', H41', H401', H4001';
    (split; [lia|]);
    (split; [intros m' Hm'; pattern m'; apply Hall; [exact Hm'|..];
             unfold size; lia|]);
    (split; [intros m' Hm'; assert (Hr : 1 ≤ m' ≤ 4) by lia;
             revert Hm'; pattern m'; apply Hall; [exact Hr|..];
             unfold size; lia|]);
    (split; [intros ?; split; [apply B1|apply L1]; lia|]);
    (split; [intros ?; split; [apply B2|split; [apply L2|apply B2]]; lia|]);
    (split; [intros ?; split; [apply B3|split; [apply L3|split; apply B3]]; lia|]);
    (split; [reflexivity|]); split; assumption.
Qed.

Lemma adaptCommands_installs_minimal_mode_witness :
  stats_wf (commandStats encoder_six) = true ∧
  ∃ pm', adaptCommands encoder_six = Ok pm' ∧ commandStats pm' = replicate 32 0.
Proof.
  split; [reflexivity|].
  pose proof (adaptCommands_installs_minimal_mode encoder_six eq_refl)
    as (c1 & c2 & c3 & rest & h1 & h2 & h3 & pm' & _ & _ & _ & _ & Ha & Hrest).
  cbn zeta in Hrest.
  destruct Hrest as (_ & _ & _ & _ & _ & _ & _ & Hz & _).
  exists pm'. split; [exact Ha|exact Hz].
Defined.

(** ** Whole streams *)

Lemma updatedCodeStatistics_keeps pm code pm' :
  coder_wf pm → updatedCodeStatistics pm code = Ok pm' →
  coder_wf pm' ∧ writeBits pm' = writeBits pm ∧
  readBit pm' = readBit pm ∧ readBits5 pm' = readBits5 pm.
Proof.
  intros [Hm Hlen] H.
  destruct (updatedCodeStatistics_index _ _ _ H) as (Hc & n & Hn).
  rewrite (updatedCodeStatistics_unfold pm code n Hc Hn) in H. cbn zeta in H.
  assert (Hk : ∀ q, length (commandStats q) = 32%nat →
                coder_wf (adapted q) ∧ writeBits (adapted q) = writeBits q ∧
                readBit (adapted q) = readBit q ∧ readBits5 (adapted q) = readBits5 q).
  { intros q Hq. pose proof (adapted_io q) as (? & ? & ?).
    pose proof (adapted_fields q) as (Hz & _ & Hf). cbn zeta in Hf.
    repeat split; try assumption.
    - repeat case_match; injection Hf as -> _; lia.
    - repeat case_match; injection Hf as -> _; lia.
    - rewrite Hz, length_replicate. exact Hq. }
  assert (Hl : length (commandStats (counted pm code n)) = 32%nat)
    by (cbn; rewrite length_insert; exact Hlen).
  repeat case_match; injection H as <-;
    lazymatch goal with
    | |- coder_wf (adapted ?q) ∧ _ => exact (Hk q Hl)
    | |- _ => repeat split; (exact Hl || apply Hm)
    end.
Qed.

(** X24: the encoder and the decoder stay in lockstep over a whole stream:
    the decoder reads back every symbol the encoder wrote and ends in the
    same coder state. *)
Lemma writeCodes_readCodes_lockstep codes : ∀ enc dec bs0,
  writeBits enc = Some bs_writeBits →
  readBit dec = Some bs_readBit → readBits5 dec = Some bs_readBits5 →
  same_coder enc dec → coder_wf enc →
  Forall (λ code, 0 ≤ code < 32) codes →
  ∃ bits enc', writeCodes codes enc bs0 = Ok (enc', bs0 ++ bits) ∧
    ∀ rest, ∃ dec',
      readCodes (length codes) dec (bits ++ rest) = Ok (codes, dec', rest) ∧
      same_coder enc' dec'.
Proof.
  induction codes as [|code codes IH]; intros enc dec bs0 Hw Hr Hr5 Hs Hwf Hc.
  - exists [], enc. rewrite app_nil_r. split; [reflexivity|].
    intros rest. exists dec. split; [reflexivity|exact Hs].
  - apply Forall_cons in Hc as [Hc Hcs].
    destruct Hwf as [Hm Hlen].
    destruct (WriteCode_emits enc code bs0 Hw Hm Hc Hlen) as (enc1 & HW & Hu).
    destruct (updatedCodeStatistics_same enc dec code enc1 Hs Hu)
      as (dec1 & Hu' & Hs1).
    destruct (updatedCodeStatistics_keeps enc code enc1 (conj Hm Hlen) Hu)
      as (Hwf1 & Hw1 & _).
    assert (Hwfd : coder_wf dec).
    { destruct Hs as (M & _ & _ & _ & _ & _ & _ & St & _).
      unfold coder_wf. rewrite <- M, <- St. split; assumption. }
    destruct (updatedCodeStatistics_keeps dec code dec1 Hwfd Hu')
      as (_ & _ & Hr1 & Hr51).
    destruct (IH enc1 dec1 (bs0 ++ spelling enc code)) as (bits & enc' & HWs & HRs);
      try assumption; try congruence.
    exists (spelling enc code ++ bits), enc'. split.
    + cbn [writeCodes]. rewrite HW. cbn. rewrite HWs, app_assoc. reflexivity.
    + intros rest. destruct (HRs rest) as (dec' & HR & Hs').
      exists dec'. split; [|exact Hs'].
      assert (E : spelling enc code = spelling dec code).
      { destruct Hs as (M & M21 & M31 & M301 & M41 & M401 & M4001 & _).
        unfold spelling. rewrite M, M21, M31, M301, M41, M401, M4001. reflexivity. }
      cbn [length readCodes]. rewrite <- app_assoc, E.
      rewrite (ReadCode_reads dec code (bits ++ rest) dec1); try assumption;
        [|destruct Hwfd; assumption].
      cbn. rewrite HR. reflexivity.
Qed.

End TsscProps.


(** ** guid.HashSet *)

Module GuidSetProps.
Import GuidSet.

Section HashSet.
Context {Guid : Type} `{Countable Guid}.

(** C10: whenever [hs] is empty, [hs.IsProperSupersetOf(other)] returns
    true for every slice [other], the empty slice included: the empty set
    is reported as a proper superset of the empty set. *)
Theorem IsProperSupersetOf_empty_receiver (hs : gset Guid) (other : list Guid) :
  IsEmpty hs = true →
  IsProperSupersetOf hs other = true ∧ IsProperSupersetOf hs [] = true.
Proof.
  intros He. unfold IsProperSupersetOf. rewrite He. split; reflexivity.
Qed.
End HashSet.

Lemma IsProperSupersetOf_empty_receiver_witness :
  IsEmpty (∅ : gset Z) = true ∧
  IsProperSupersetOf (∅ : gset Z) [1; 2] = true ∧
  IsProperSupersetOf (∅ : gset Z) [] = true.
Proof.
  split; [reflexivity|].
  apply (IsProperSupersetOf_empty_receiver (∅ : gset Z) [1; 2]). reflexivity.
Defined.

End GuidSetProps.

(** ** metadata.DataRow *)

Module MetadataProps.
Import Metadata.

Section DataRow.
Context {DataTable DataColumn V : Type}.
Variable Column : DataTable → Z → option DataColumn.
Variable TableName : DataTable → string.
Variable ColumnName : DataColumn → string.
Variable ColumnType : DataColumn → Z.
Variable Computed : DataColumn → bool.

(** C9: for every row and every column index whose column is marked
    computed, [Value] returns [nil] with no error, whatever the column's
    declared type and whatever the row stores. *)
Theorem Value_computed_is_nil (dr : DataRow (V := V)) (columnIndex : Z)
    (column : DataColumn) :
  Column (parent dr) columnIndex = Some column →
  Computed column = true →
  Value Column TableName ColumnName ColumnType Computed dr columnIndex
    = Return None None.
Proof.
  intros Hcol Hcomp. unfold Value, validateColumnType. rewrite Hcol.
  cbn. rewrite Hcomp. reflexivity.
Qed.
End DataRow.

Lemma Value_computed_is_nil_witness :
  Samples.sampleColumn (parent Samples.sampleRow) 1 = Some ("Rate"%string, 3, true) ∧
  Value Samples.sampleColumn fst (λ c, c.1.1) (λ c, c.1.2) snd Samples.sampleRow 1
    = Return None None.
Proof.
  split; [reflexivity|].
  apply (Value_computed_is_nil Samples.sampleColumn fst (λ c, c.1.1) (λ c, c.1.2) snd
           Samples.sampleRow 1 ("Rate"%string, 3, true)); reflexivity.
Defined.

End MetadataProps.

(** ** guid.HashSet: the remaining methods *)

Module GuidSetOpsProps.
Import GuidSet GuidSetOps.

Section HashSet.
Context {Guid : Type} {Guid_eq : EqDecision Guid} {Guid_countable : Countable Guid}.
Implicit Types (hs other : gset Guid) (item : Guid) (l : list Guid).

Lemma Contains_true hs item : Contains hs item = true ↔ item ∈ hs.
Proof. unfold Contains. apply bool_decide_eq_true. Qed.

Lemma Contains_false hs item : Contains hs item = false ↔ item ∉ hs.
Proof. unfold Contains. apply bool_decide_eq_false. Qed.

Lemma IsEmpty_true hs : IsEmpty hs = true ↔ hs = ∅.
Proof.
  unfold IsEmpty. rewrite Nat.eqb_eq. split.
  - intros Hz. apply leibniz_equiv, size_empty_inv, Hz.
  - intros ->. apply size_empty.
Qed.

Lemma containsEach_true hs l : containsEach hs l = true ↔ ∀ x, x ∈ l → x ∈ hs.
Proof.
  induction l as [|v l IH]; cbn.
  - split; [intros _ x Hx; inversion Hx|reflexivity].
  - destruct (Contains hs v) eqn:E; cbn.
    + apply Contains_true in E. rewrite IH. split.
      * intros Hl x Hx. apply elem_of_cons in Hx as [->|Hx]; auto.
      * intros Hl x Hx. apply Hl. right. exact Hx.
    + apply Contains_false in E. split; [discriminate|].
      intros Hl. exfalso. apply E, Hl. left.
Qed.

Lemma containsSome_true hs l : containsSome hs l = true ↔ ∃ x, x ∈ l ∧ x ∈ hs.
Proof.
  induction l as [|v l IH]; cbn.
  - split; [discriminate|]. intros (x & Hx & _). inversion Hx.
  - destruct (Contains hs v) eqn:E.
    + apply Contains_true in E. split; [|reflexivity].
      intros _. exists v. split; [left|exact E].
    + apply Contains_false in E. rewrite IH. split.
      * intros (x & Hx & Hin). exists x. split; [right; exact Hx|exact Hin].
      * intros (x & Hx & Hin). apply elem_of_cons in Hx as [->|Hx]; [done|].
        exists x. auto.
Qed.

Lemma Add_fst hs item : (Add hs item).1 = {[item]} ∪ hs.
Proof.
  unfold Add. destruct (Contains hs item) eqn:E; cbn; [|reflexivity].
  apply Contains_true in E. set_solver.
Qed.

Lemma Remove_fst hs item : (Remove hs item).1 = hs ∖ {[item]}.
Proof.
  unfold Remove. destruct (Contains hs item) eqn:E; cbn; [reflexivity|].
  apply Contains_false in E. set_solver.
Qed.

Lemma Remove_snd hs item : (Remove hs item).2 = true ↔ item ∈ hs.
Proof.
  unfold Remove. destruct (Contains hs item) eqn:E; cbn.
  - apply Contains_true in E. done.
  - apply Contains_false in E. split; [discriminate|]. intros N. contradiction.
Qed.


(** X2: [Remove] returns true exactly when the item was present; afterwards
    the set is the old one without the item, so its size shrinks by one on
    true and is unchanged on false. *)
Theorem Remove_spec hs item :
  (Remove hs item).1 = hs ∖ {[item]} ∧
  ((Remove hs item).2 = true ↔ item ∈ hs) ∧
  (size (Remove hs item).1 + if (Remove hs item).2 then 1 else 0)%nat = size hs.
Proof.
  unfold Remove. destruct (Contains hs item) eqn:E; cbn.
  - apply Contains_true in E. split; [reflexivity|]. split; [done|].
    rewrite size_difference by set_solver. rewrite size_singleton.
    assert (size hs ≠ 0%nat) by (intros Hz; apply size_empty_inv in Hz; set_solver).
    lia.
  - apply Contains_false in E. split; [set_solver|]. split; [|lia].
    split; [discriminate|]. intros N. contradiction.
Qed.


Lemma UnionWith_union l : ∀ hs, UnionWith hs l = hs ∪ list_to_set l.
Proof.
  induction l as [|v l IH]; intros hs; cbn [UnionWith list_to_set].
  - set_solver.
  - rewrite IH, Add_fst. set_solver.
Qed.


(** X5: copying a set to a slice with [Keys] and building a set from that
    slice gives the same set back; the slice has one entry per element. *)
Theorem NewHashSet_Keys hs :
  NewHashSet (Keys hs) = hs ∧ length (Keys hs) = size hs ∧ NoDup (Keys hs).
Proof.
  unfold NewHashSet, Keys. rewrite UnionWith_union, list_to_set_elements_L.
  split; [set_solver|]. split; [reflexivity|apply NoDup_elements].
Qed.

Lemma ExceptWith_difference l : ∀ hs, ExceptWith hs l = hs ∖ list_to_set l.
Proof.
  induction l as [|v l IH]; intros hs; cbn [ExceptWith list_to_set].
  - set_solver.
  - rewrite IH. set_solver.
Qed.

(** X6: [ExceptWith] removes exactly the elements of the slice, and
    [ExceptWithSet] is set difference; in particular a set minus itself is
    empty. *)
Theorem ExceptWith_spec hs other l :
  ExceptWith hs l = hs ∖ list_to_set l ∧
  ExceptWithSet hs other = hs ∖ other ∧
  ExceptWithSet hs hs = ∅.
Proof.
  split; [apply ExceptWith_difference|].
  unfold ExceptWithSet, Keys. rewrite !ExceptWith_difference.
  rewrite !list_to_set_elements_L. split; [reflexivity|set_solver].
Qed.

Lemma removeWhereLoop_spec (p : Guid → bool) l : ∀ hs n,
  NoDup l → (∀ x, x ∈ l → x ∈ hs) →
  (∀ x, x ∈ (removeWhereLoop p l hs n).1
        ↔ x ∈ hs ∧ ¬ (x ∈ l ∧ p x = true)) ∧
  ((removeWhereLoop p l hs n).2 + size (removeWhereLoop p l hs n).1
   = n + size hs)%nat.
Proof.
  induction l as [|k l IH]; intros hs n Hnd Hsub; cbn [removeWhereLoop].
  - cbn. split; [|reflexivity]. intros x. split; [|tauto].
    intros Hx. split; [exact Hx|]. intros [Hl _]. inversion Hl.
  - apply NoDup_cons in Hnd as [Hk Hnd].
    assert (Hkin : k ∈ hs) by (apply Hsub; left).
    destruct (p k) eqn:Ep.
    + pose proof (Remove_fst hs k) as E1. pose proof (Remove_snd hs k) as E2.
      destruct (Remove hs k) as [hs' removed]. cbn [fst snd] in *.
      assert (removed = true) as -> by (apply E2; exact Hkin).
      destruct (IH hs' (S n) Hnd) as [M C].
      { intros x Hx. rewrite E1. apply elem_of_difference. split.
        - apply Hsub. right. exact Hx.
        - rewrite elem_of_singleton. intros ->. contradiction. }
      split.
      * intros x. rewrite M, E1, elem_of_difference, elem_of_singleton, elem_of_cons.
        destruct (decide (x = k)) as [->|]; naive_solver.
      * rewrite C, E1. rewrite size_difference by set_solver.
        rewrite size_singleton.
        assert (size hs ≠ 0%nat)
          by (intros Hz; apply size_empty_inv in Hz; set_solver).
        lia.
    + destruct (IH hs n Hnd) as [M C].
      { intros x Hx. apply Hsub. right. exact Hx. }
      split; [|exact C].
      intros x. rewrite M, elem_of_cons.
      destruct (decide (x = k)) as [->|]; [|naive_solver].
      split; [intros [Hx _]|intros [Hx _]]; (split; [exact Hx|]).
      * intros [_ Hp]. congruence.
      * intros [Hl _]. contradiction.
Qed.

(** X7: [RemoveWhere] keeps exactly the elements the predicate rejects, and
    the count it returns is the number of elements it removed. *)
Theorem RemoveWhere_spec hs (predicate : Guid → bool) :
  (∀ x, x ∈ (RemoveWhere hs predicate).1 ↔ x ∈ hs ∧ predicate x = false) ∧
  ((RemoveWhere hs predicate).2 + size (RemoveWhere hs predicate).1)%nat = size hs.
Proof.
  unfold RemoveWhere.
  destruct (removeWhereLoop_spec predicate (elements hs) hs 0) as [M C].
  { apply NoDup_elements. }
  { intros x. apply elem_of_elements. }
  split; [|rewrite C; reflexivity].
  intros x. rewrite M, elem_of_elements.
  destruct (predicate x); naive_solver.
Qed.







Lemma Clear_empty hs : Clear hs = ∅.
Proof.
  unfold Clear.
  assert (G : ∀ (l : list Guid) (acc : gset Guid),
            foldl (λ a k, a ∖ {[k]}) acc l = acc ∖ list_to_set l).
  { induction l as [|k l IH]; intros acc; cbn; [set_solver|].
    rewrite IH. set_solver. }
  rewrite G, list_to_set_elements_L. set_solver.
Qed.

Lemma intersectLoop_elem_of other l : ∀ hs x,
  x ∈ intersectLoop other l hs ↔ x ∈ hs ∧ (x ∈ l → x ∈ other).
Proof.
  induction l as [|k l IH]; intros hs x; cbn [intersectLoop].
  - split; [intros Hx; split; [exact Hx|intros Hl; inversion Hl]|tauto].
  - destruct (Contains other k) eqn:E; cbn [negb].
    + apply Contains_true in E. rewrite IH, elem_of_cons. naive_solver.
    + apply Contains_false in E. rewrite IH.
      rewrite Remove_fst.
      rewrite elem_of_difference, elem_of_singleton, elem_of_cons.
      destruct (decide (x = k)) as [->|]; naive_solver.
Qed.

(** X10: [IntersectWithSet] is set intersection, on each of its three
    paths, and [IntersectWith] keeps exactly the elements that occur in the
    slice. *)
Theorem IntersectWith_spec hs other l :
  IntersectWithSet hs other = hs ∩ other ∧
  IntersectWith hs l = hs ∩ list_to_set l.
Proof.
  assert (G : ∀ o, IntersectWithSet hs o = hs ∩ o).
  { intros o. unfold IntersectWithSet.
    destruct (Nat.eqb_spec (size hs) 0) as [Eh|Nh].
    - apply size_empty_inv, leibniz_equiv in Eh. set_solver.
    - destruct (Nat.eqb_spec (size o) 0) as [Eo|No].
      + apply size_empty_inv, leibniz_equiv in Eo. rewrite Clear_empty. set_solver.
      + apply set_eq. intros x.
        rewrite intersectLoop_elem_of, elem_of_elements, elem_of_intersection.
        naive_solver. }
  split; [apply G|].
  unfold IntersectWith, NewHashSet. rewrite G, UnionWith_union. set_solver.
Qed.

(** X11: [SetEqualsSet] decides equality of two sets, and on a slice
    without repetitions [SetEquals] decides whether the slice lists exactly
    the set; whenever [SetEquals] returns true, every element of the slice
    is in the set. *)
Theorem SetEquals_spec hs other l :
  (SetEqualsSet hs other = true ↔ hs = other) ∧
  (NoDup l → (SetEquals hs l = true ↔ hs = list_to_set l)) ∧
  (SetEquals hs l = true → ∀ x, x ∈ l → x ∈ hs).
Proof.
  assert (G : ∀ k, NoDup k → (SetEquals hs k = true ↔ hs = list_to_set k)).
  { intros k Hnd. unfold SetEquals.
    destruct (Nat.eqb_spec (size hs) (length k)) as [El|Nl]; cbn [negb].
    - rewrite containsEach_true. split.
      + intros Hall. symmetry. apply set_subseteq_size_eq.
        * intros x Hx. apply Hall. apply elem_of_list_to_set in Hx. exact Hx.
        * rewrite size_list_to_set by exact Hnd. lia.
      + intros -> x Hx. apply elem_of_list_to_set. exact Hx.
    - split; [discriminate|]. intros ->.
      rewrite size_list_to_set in Nl by exact Hnd. contradiction. }
  split; [|split; [apply G|]].
  - unfold SetEqualsSet, Keys. rewrite G by apply NoDup_elements.
    rewrite list_to_set_elements_L. reflexivity.
  - unfold SetEquals. destruct (negb _); [discriminate|].
    apply containsEach_true.
Qed.

(** X12: [Overlaps] returns true exactly when some element of the slice is
    in the set, and [OverlapsSet] exactly when the two sets share an
    element; an empty receiver never overlaps. *)
Theorem Overlaps_spec hs other l :
  (Overlaps hs l = true ↔ ∃ x, x ∈ l ∧ x ∈ hs) ∧
  (OverlapsSet hs other = true ↔ hs ∩ other ≠ ∅).
Proof.
  assert (G : ∀ k, Overlaps hs k = true ↔ ∃ x, x ∈ k ∧ x ∈ hs).
  { intros k. unfold Overlaps. destruct (IsEmpty hs) eqn:E.
    - apply IsEmpty_true in E. subst hs. split; [discriminate|].
      intros (x & _ & Hx). set_solver.
    - apply containsSome_true. }
  split; [apply G|].
  unfold OverlapsSet, Keys. rewrite G. split.
  - intros (x & Hx & Hh). apply elem_of_elements in Hx. set_solver.
  - intros Hne. apply set_choose_L in Hne as [x Hx].
    exists x. rewrite elem_of_elements. set_solver.
Qed.

Lemma containsEach_elements hs other :
  containsEach other (elements hs) = true ↔ hs ⊆ other.
Proof.
  rewrite containsEach_true. split.
  - intros Hall x Hx. apply Hall, elem_of_elements, Hx.
  - intros Hsub x Hx. apply Hsub, elem_of_elements, Hx.
Qed.

Lemma IsSubsetOfSet_subseteq hs other : IsSubsetOfSet hs other = true ↔ hs ⊆ other.
Proof.
  unfold IsSubsetOfSet. destruct (IsEmpty hs) eqn:E.
  - apply IsEmpty_true in E. subst hs. split; [set_solver|reflexivity].
  - destruct (Nat.ltb_spec (size other) (size hs)) as [Hlt|Hge].
    + split; [discriminate|]. intros Hsub. apply subseteq_size in Hsub. lia.
    + apply containsEach_elements.
Qed.

Lemma IsProperSubsetOfSet_subset hs other :
  IsProperSubsetOfSet hs other = true ↔ hs ⊂ other.
Proof.
  unfold IsProperSubsetOfSet. destruct (IsEmpty hs) eqn:E.
  - apply IsEmpty_true in E. subst hs. rewrite Nat.ltb_lt. split.
    + intros Hpos. apply size_pos_elem_of in Hpos as [x Hx]. set_solver.
    + intros Hsub. apply subset_size in Hsub. rewrite size_empty in Hsub. exact Hsub.
  - destruct (Nat.leb_spec (size other) (size hs)) as [Hle|Hgt].
    + split; [discriminate|]. intros Hsub. apply subset_size in Hsub. lia.
    + rewrite containsEach_elements. split.
      * intros Hsub. split; [exact Hsub|]. intros Hrev.
        apply subseteq_size in Hrev. lia.
      * intros [Hsub _]. exact Hsub.
Qed.

(** X13: [IsSubsetOfSet] decides inclusion and [IsProperSubsetOfSet]
    strict inclusion; on a slice, repetitions or not, [IsSubsetOf] and
    [IsProperSubsetOf] decide them against the set of the slice's
    elements. *)
Theorem IsSubsetOf_spec hs other l :
  (IsSubsetOfSet hs other = true ↔ hs ⊆ other) ∧
  (IsProperSubsetOfSet hs other = true ↔ hs ⊂ other) ∧
  (IsSubsetOf hs l = true ↔ hs ⊆ list_to_set l) ∧
  (IsProperSubsetOf hs l = true ↔ hs ⊂ list_to_set l).
Proof.
  split; [apply IsSubsetOfSet_subseteq|]. split; [apply IsProperSubsetOfSet_subset|].
  unfold IsSubsetOf, IsProperSubsetOf, NewHashSet.
  rewrite IsSubsetOfSet_subseteq, IsProperSubsetOfSet_subset, UnionWith_union,
    (left_id_L ∅ (∪)). split; reflexivity.
Qed.

(** X14: [IsSupersetOfSet] decides reverse inclusion. On a slice,
    [IsSupersetOf] returning true means every element of the slice is in the
    set, and for a slice without repetitions it returns true exactly then;
    a slice longer than the set is rejected without being looked at. *)
Theorem IsSupersetOf_spec hs other l :
  (IsSupersetOfSet hs other = true ↔ other ⊆ hs) ∧
  (IsSupersetOf hs l = true → ∀ x, x ∈ l → x ∈ hs) ∧
  (NoDup l → (IsSupersetOf hs l = true ↔ ∀ x, x ∈ l → x ∈ hs)) ∧
  ((size hs < length l)%nat → IsSupersetOf hs l = false).
Proof.
  assert (S : IsSupersetOf hs l = true → ∀ x, x ∈ l → x ∈ hs).
  { unfold IsSupersetOf. destruct l as [|v k]; [intros _ x Hx; inversion Hx|].
    cbn [length Nat.eqb]. destruct (_ <? _)%nat; [discriminate|].
    apply containsEach_true. }
  assert (G : ∀ k, NoDup k → (IsSupersetOf hs k = true ↔ ∀ x, x ∈ k → x ∈ hs)).
  { intros k Hnd. unfold IsSupersetOf.
    destruct (Nat.eqb_spec (length k) 0) as [E0|N0].
    - destruct k; [|discriminate]. split; [intros _ x Hx; inversion Hx|reflexivity].
    - destruct (Nat.ltb_spec (size hs) (length k)) as [Hlt|Hge].
      + split; [discriminate|]. intros Hall.
        assert (Hsub : list_to_set k ⊆ hs)
          by (intros x Hx; apply Hall; apply elem_of_list_to_set in Hx; exact Hx).
        apply subseteq_size in Hsub.
        rewrite size_list_to_set in Hsub by exact Hnd. lia.
      + apply containsEach_true. }
  split; [|split; [exact S|split; [apply G|]]].
  - unfold IsSupersetOfSet, Keys. rewrite G by apply NoDup_elements. split.
    + intros Hall x Hx. apply Hall, elem_of_elements, Hx.
    + intros Hsub x Hx. apply Hsub, elem_of_elements, Hx.
  - intros Hlt. unfold IsSupersetOf.
    destruct (Nat.eqb_spec (length l) 0) as [E0|N0]; [lia|].
    destruct (Nat.ltb_spec (size hs) (length l)); [reflexivity|lia].
Qed.

(** X15: [IsProperSupersetOfSet] returns true exactly when the receiver is
    empty or strictly includes the other set. So it agrees with
    [IsProperSubsetOfSet] with the arguments exchanged exactly when the
    receiver is not empty. *)
Theorem IsProperSupersetOfSet_spec hs other :
  (IsProperSupersetOfSet hs other = true ↔ hs = ∅ ∨ other ⊂ hs) ∧
  (hs ≠ ∅ → IsProperSupersetOfSet hs other = IsProperSubsetOfSet other hs) ∧
  (hs = ∅ → IsProperSupersetOfSet hs other = true ∧
            IsProperSubsetOfSet other hs = false).
Proof.
  assert (G : IsProperSupersetOfSet hs other = true ↔ hs = ∅ ∨ other ⊂ hs).
  { unfold IsProperSupersetOfSet, IsProperSupersetOf, Keys.
    change (length (elements other)) with (size other).
    destruct (IsEmpty hs) eqn:E.
    - apply IsEmpty_true in E. split; [left; exact E|reflexivity].
    - assert (Hne : hs ≠ ∅) by (intros Hc; apply IsEmpty_true in Hc; congruence).
      destruct (Nat.eqb_spec (size other) 0) as [E0|N0].
      + split; [|reflexivity]. intros _. right.
        assert (other = ∅) as -> by (apply leibniz_equiv, size_empty_inv; exact E0).
        split; [set_solver|]. intros Hc. apply Hne. set_solver.
      + destruct (Nat.leb_spec (size hs) (size other)) as [Hle|Hgt].
        * split; [discriminate|]. intros [?|Hsub]; [contradiction|].
          apply subset_size in Hsub. lia.
        * rewrite containsEach_elements. split.
          -- intros Hsub. right. split; [exact Hsub|]. intros Hrev.
             apply subseteq_size in Hrev. lia.
          -- intros [?|[Hsub _]]; [contradiction|exact Hsub]. }
  split; [exact G|]. split.
  - intros Hne.
    apply eq_true_iff_eq. rewrite G, IsProperSubsetOfSet_subset. naive_solver.
  - intros ->. split; [apply G; left; reflexivity|].
    apply not_true_is_false. rewrite IsProperSubsetOfSet_subset.
    intros [Hsub Hn]. apply Hn. set_solver.
Qed.

End HashSet.
End GuidSetOpsProps.

(** ** ticks.Ticks *)

Module TicksProps.
Import Ticks.

Lemma ValueMask_ones : ValueMask = Z.ones 62.
Proof. reflexivity. Qed.

Lemma land_ValueMask t : Z.land t ValueMask = t mod 2 ^ 62.
Proof. rewrite ValueMask_ones. apply Z.land_ones. lia. Qed.

Lemma is_uint64_land_ones x : is_uint64 x ↔ Z.land x (Z.ones 64) = x.
Proof.
  unfold is_uint64. rewrite Z.land_ones by lia.
  change (2 ^ 64) with 18446744073709551616. split.
  - intros Hx. apply Z.mod_small. exact Hx.
  - intros <-. apply Z.mod_pos_bound. lia.
Qed.

Lemma is_uint64_lor a b : is_uint64 a → is_uint64 b → is_uint64 (Z.lor a b).
Proof.
  rewrite !is_uint64_land_ones. intros Ha Hb.
  rewrite Z.land_lor_distr_l, Ha, Hb. reflexivity.
Qed.

Lemma is_uint64_land a b : is_uint64 a → is_uint64 (Z.land a b).
Proof.
  rewrite !is_uint64_land_ones. intros Ha.
  rewrite <- Z.land_assoc, (Z.land_comm b), Z.land_assoc, Ha. reflexivity.
Qed.

Lemma TimestampValue_mod t : TimestampValue t = t mod 2 ^ 62.
Proof.
  unfold TimestampValue, wrap_int64. rewrite land_ValueMask.
  pose proof (Z.mod_pos_bound t (2 ^ 62) ltac:(lia)).
  rewrite Z.mod_small by lia. lia.
Qed.

(** X16: for every [uint64] count of Unix nanoseconds, [FromUnixNs] gives a
    tick value with both leap-second bits clear, and [ToUnixNs] takes it
    back to the nanoseconds rounded down to a multiple of 100. *)
Theorem FromUnixNs_ToUnixNs (ns : Z) :
  is_uint64 ns →
  ToUnixNs (FromUnixNs ns) = 100 * (ns / 100) ∧
  ns - 99 ≤ ToUnixNs (FromUnixNs ns) ≤ ns ∧
  TimestampValue (FromUnixNs ns) = FromUnixNs ns ∧
  IsLeapSecond (FromUnixNs ns) = false ∧
  IsNegativeLeapSecond (FromUnixNs ns) = false.
Proof.
  unfold is_uint64. intros Hns.
  assert (Hq : 0 ≤ ns / 100 < 184467440737095517).
  { split; [apply Z.div_pos; lia|]. apply Z.div_lt_upper_bound; lia. }
  assert (EF : FromUnixNs ns = ns / 100 + UnixBaseOffset).
  { unfold FromUnixNs, wrap_uint64, UnixBaseOffset. apply Z.mod_small. lia. }
  assert (ET : TimestampValue (FromUnixNs ns) = FromUnixNs ns).
  { rewrite TimestampValue_mod, EF. unfold UnixBaseOffset.
    apply Z.mod_small. change (2 ^ 62) with 4611686018427387904. lia. }
  assert (EU : ToUnixNs (FromUnixNs ns) = 100 * (ns / 100)).
  { unfold ToUnixNs. rewrite land_ValueMask, <- TimestampValue_mod, ET, EF.
    unfold wrap_uint64. replace (ns / 100 + UnixBaseOffset - UnixBaseOffset)
      with (ns / 100) by lia.
    rewrite (Z.mod_small (ns / 100)) by lia.
    rewrite Z.mod_small by lia. lia. }
  assert (EL : IsLeapSecond (FromUnixNs ns) = false).
  { unfold IsLeapSecond. rewrite EF.
    replace (Z.land (ns / 100 + UnixBaseOffset) LeapSecondFlag) with 0; [reflexivity|].
    symmetry. apply Z.bits_inj'. intros n Hn.
    rewrite Z.land_spec, Z.bits_0. unfold LeapSecondFlag.
    rewrite Z.shiftl_1_l, Z.pow2_bits_eqb by lia.
    destruct (Z.eqb_spec 63 n) as [<-|]; [|apply andb_false_r].
    rewrite andb_true_r. apply Z.bits_above_log2; [unfold UnixBaseOffset; lia|].
    apply Z.log2_lt_pow2; unfold UnixBaseOffset; lia. }
  split; [exact EU|]. split.
  - rewrite EU. pose proof (Z.div_mod ns 100 ltac:(lia)).
    pose proof (Z.mod_pos_bound ns 100 ltac:(lia)). lia.
  - split; [exact ET|]. split; [exact EL|].
    unfold IsNegativeLeapSecond. rewrite EL. reflexivity.
Qed.

Lemma FromUnixNs_ToUnixNs_witness :
  is_uint64 1631371599339127800 ∧
  ToUnixNs (FromUnixNs 1631371599339127800) = 1631371599339127800.
Proof.
  assert (H : is_uint64 1631371599339127800) by (unfold is_uint64; lia).
  split; [exact H|].
  destruct (FromUnixNs_ToUnixNs 1631371599339127800 H) as (E & _).
  rewrite E. reflexivity.
Defined.

(** X17: [ToUnixNs] ignores the two leap-second bits. For a tick value
    whose timestamp part is at or after the Unix epoch and at most
    [UnixBaseOffset + 184467440737095516] it returns 100 times the ticks
    elapsed since the epoch, and [FromUnixNs] takes that back to the
    timestamp part. *)
Theorem ToUnixNs_FromUnixNs (t : Z) :
  is_uint64 t →
  UnixBaseOffset ≤ TimestampValue t ≤ UnixBaseOffset + 184467440737095516 →
  ToUnixNs t = 100 * (TimestampValue t - UnixBaseOffset) ∧
  FromUnixNs (ToUnixNs t) = TimestampValue t.
Proof.
  intros _ Hv.
  assert (EU : ToUnixNs t = 100 * (TimestampValue t - UnixBaseOffset)).
  { unfold ToUnixNs. rewrite land_ValueMask, <- TimestampValue_mod.
    unfold wrap_uint64, UnixBaseOffset in *.
    rewrite (Z.mod_small (TimestampValue t - _)) by lia.
    rewrite Z.mod_small by lia. lia. }
  split; [exact EU|]. rewrite EU. unfold FromUnixNs, wrap_uint64.
  replace (100 * (TimestampValue t - UnixBaseOffset) / 100)
    with (TimestampValue t - UnixBaseOffset)
    by (rewrite Z.mul_comm, Z.div_mul; lia).
  unfold UnixBaseOffset in *. rewrite Z.mod_small by lia. lia.
Qed.

Lemma ToUnixNs_FromUnixNs_witness :
  is_uint64 (SetLeapSecond 637669683993391278) ∧
  ToUnixNs (SetLeapSecond 637669683993391278) = 1631371599339127800 ∧
  FromUnixNs 1631371599339127800 = 637669683993391278.
Proof.
  assert (H : is_uint64 (SetLeapSecond 637669683993391278))
    by (vm_compute; split; [discriminate|reflexivity]).
  split; [exact H|].
  destruct (ToUnixNs_FromUnixNs (SetLeapSecond 637669683993391278) H) as (E1 & E2).
  { vm_compute. split; discriminate. }
  split; [rewrite E1; reflexivity|].
  rewrite E1 in E2. exact E2.
Defined.

Lemma land_flag_zero_mask :
  Z.land LeapSecondFlag ValueMask = 0 ∧ Z.land LeapSecondDirection ValueMask = 0 ∧
  Z.land (not64 LeapSecondDirection) ValueMask = ValueMask ∧
  Z.land LeapSecondDirection LeapSecondFlag = 0 ∧
  Z.land (not64 LeapSecondDirection) LeapSecondFlag = LeapSecondFlag ∧
  Z.land (not64 LeapSecondDirection) LeapSecondDirection = 0.
Proof. repeat split. Qed.

Lemma is_uint64_flags : is_uint64 LeapSecondFlag ∧ is_uint64 LeapSecondDirection.
Proof.
  unfold is_uint64, LeapSecondFlag, LeapSecondDirection.
  change (Z.shiftl 1 63) with 9223372036854775808.
  change (Z.shiftl 1 62) with 4611686018427387904. lia.
Qed.

(** X18: setting the leap-second flag or the leap-second direction leaves
    the timestamp part alone, so [TimestampValue] and [ToUnixNs] are
    unchanged, and the result is still a [uint64]. *)
Theorem leap_bits_keep_timestamp (t : Z) (negative : bool) :
  is_uint64 t →
  is_uint64 (SetLeapSecond t) ∧ is_uint64 (SetLeapSecondDirection t negative) ∧
  TimestampValue (SetLeapSecond t) = TimestampValue t ∧
  TimestampValue (SetLeapSecondDirection t negative) = TimestampValue t ∧
  ToUnixNs (SetLeapSecond t) = ToUnixNs t ∧
  ToUnixNs (SetLeapSecondDirection t negative) = ToUnixNs t.
Proof.
  intros Ht.
  destruct land_flag_zero_mask as (F0 & D0 & N0 & _).
  assert (M1 : Z.land (SetLeapSecond t) ValueMask = Z.land t ValueMask).
  { unfold SetLeapSecond. rewrite Z.land_lor_distr_l, F0. apply Z.lor_0_r. }
  assert (M2 : Z.land (SetLeapSecondDirection t negative) ValueMask
               = Z.land t ValueMask).
  { unfold SetLeapSecondDirection. destruct negative.
    - rewrite Z.land_lor_distr_l, D0. apply Z.lor_0_r.
    - rewrite <- Z.land_assoc, N0. reflexivity. }
  split; [apply is_uint64_lor; [exact Ht|apply is_uint64_flags]|].
  split.
  { unfold SetLeapSecondDirection. destruct negative.
    - apply is_uint64_lor; [exact Ht|apply is_uint64_flags].
    - apply is_uint64_land. exact Ht. }
  unfold TimestampValue, ToUnixNs. rewrite M1, M2. repeat split.
Qed.

Lemma leap_bits_keep_timestamp_witness :
  is_uint64 637669683993391278 ∧
  TimestampValue (SetLeapSecondDirection (SetLeapSecond 637669683993391278) true)
    = 637669683993391278.
Proof.
  assert (H : is_uint64 637669683993391278) by (unfold is_uint64; lia).
  split; [exact H|].
  destruct (leap_bits_keep_timestamp 637669683993391278 true H) as (H1 & _).
  destruct (leap_bits_keep_timestamp (SetLeapSecond 637669683993391278) true H1)
    as (_ & _ & _ & E & _).
  rewrite E. reflexivity.
Defined.

(** X19: after [SetLeapSecond], [IsLeapSecond] is true;
    [SetLeapSecondDirection] does not change [IsLeapSecond], and after it
    [IsNegativeLeapSecond] is true exactly when the value is a leap second
    and the direction set was negative. *)
Theorem leap_bits_read_back (t : Z) (negative : bool) :
  IsLeapSecond (SetLeapSecond t) = true ∧
  IsLeapSecond (SetLeapSecondDirection t negative) = IsLeapSecond t ∧
  IsNegativeLeapSecond (SetLeapSecondDirection t negative)
    = IsLeapSecond t && negative ∧
  IsNegativeLeapSecond (SetLeapSecondDirection (SetLeapSecond t) negative) = negative.
Proof.
  destruct land_flag_zero_mask as (_ & _ & _ & DF & NF & ND).
  assert (L1 : ∀ u, IsLeapSecond (SetLeapSecond u) = true).
  { intros u. unfold IsLeapSecond, SetLeapSecond.
    rewrite Z.land_lor_distr_l, Z.land_diag.
    destruct (Z.eqb_spec (Z.lor (Z.land u LeapSecondFlag) LeapSecondFlag) 0) as [E|];
      [|reflexivity].
    apply Z.lor_eq_0_iff in E as [_ E]. discriminate. }
  assert (L2 : ∀ u, IsLeapSecond (SetLeapSecondDirection u negative) = IsLeapSecond u).
  { intros u. unfold IsLeapSecond, SetLeapSecondDirection. destruct negative.
    - rewrite Z.land_lor_distr_l, DF, Z.lor_0_r. reflexivity.
    - rewrite <- Z.land_assoc, NF. reflexivity. }
  assert (L3 : ∀ u, negb (Z.land (SetLeapSecondDirection u negative)
                            LeapSecondDirection =? 0) = negative).
  { intros u. unfold SetLeapSecondDirection. destruct negative.
    - rewrite Z.land_lor_distr_l, Z.land_diag.
      destruct (Z.eqb_spec (Z.lor (Z.land u LeapSecondDirection) LeapSecondDirection) 0)
        as [E|]; [|reflexivity].
      apply Z.lor_eq_0_iff in E as [_ E]. discriminate.
    - rewrite <- Z.land_assoc, ND, Z.land_0_r. reflexivity. }
  split; [apply L1|]. split; [apply L2|]. split.
  { unfold IsNegativeLeapSecond. rewrite L2, L3. reflexivity. }
  unfold IsNegativeLeapSecond. rewrite L2, L3, L1. reflexivity.
Qed.

End TicksProps.

(** ** The symbol coder: failures, reachable states, encoded sizes *)

Module TsscRunProps.
Import Tssc TsscSpec TsscProps TsscRunSpec.

Lemma mode_cases (m : Z) :
  m = 1 ∨ m = 2 ∨ m = 3 ∨ m = 4 ∨ ¬ 1 ≤ m ≤ 4.
Proof. lia. Qed.

Lemma bad_mode_WriteCode pm code bs :
  ¬ 1 ≤ mode pm ≤ 4 → WriteCode pm code bs = Panic CodingError.
Proof.
  intros Hm. unfold WriteCode.
  destruct (mode pm) as [|p|p]; try reflexivity.
  destruct p as [[p|p|]|[p|p|]|]; try reflexivity; try lia;
    destruct p; try reflexivity; lia.
Qed.

Lemma bad_mode_ReadCode pm bs :
  ¬ 1 ≤ mode pm ≤ 4 → ReadCode pm bs = Panic UnsupportedCompressionMode.
Proof.
  intros Hm. unfold ReadCode.
  destruct (mode pm) as [|p|p]; try reflexivity.
  destruct p as [[p|p|]|[p|p|]|]; try reflexivity; try lia;
    destruct p; try reflexivity; lia.
Qed.

Lemma updatedCodeStatistics_out_of_range pm code :
  ¬ 0 ≤ code < Z.of_nat (length (commandStats pm)) →
  updatedCodeStatistics pm code = Panic IndexOutOfRange.
Proof.
  intros Hc. unfold updatedCodeStatistics.
  destruct (Z.leb_spec 0 code); [|reflexivity].
  cbn [set_commandsSentSinceLastChange commandStats].
  rewrite lookup_ge_None_2 by lia. reflexivity.
Qed.

(** X20: a state whose mode is not 1..4 makes [WriteCode] panic with
    "Coding Error" and [ReadCode] with "Unsupported compression mode",
    whatever the symbol and the stream. With a valid mode, [WriteCode] of a
    symbol outside the histogram panics on the histogram index, and
    [updatedCodeStatistics] returns for every symbol inside it. *)
Theorem coding_panics (pm : pointMetadata) (code : Z) (bs : BitStream) :
  (¬ 1 ≤ mode pm ≤ 4 →
     WriteCode pm code bs = Panic CodingError ∧
     ReadCode pm bs = Panic UnsupportedCompressionMode) ∧
  (1 ≤ mode pm ≤ 4 → writeBits pm = Some bs_writeBits →
     ¬ 0 ≤ code < Z.of_nat (length (commandStats pm)) →
     WriteCode pm code bs = Panic IndexOutOfRange) ∧
  (0 ≤ code < Z.of_nat (length (commandStats pm)) →
     ∃ pm', updatedCodeStatistics pm code = Ok pm').
Proof.
  split; [intros Hm; split; [apply bad_mode_WriteCode|apply bad_mode_ReadCode]; exact Hm|].
  split; [|apply updatedCodeStatistics_total].
  intros Hm Hw Hc. unfold WriteCode, call_writeBits. rewrite Hw.
  rewrite (updatedCodeStatistics_out_of_range pm code Hc).
  destruct (mode_cases (mode pm)) as [-> | [-> | [-> | [-> | N]]]]; [..|contradiction];
    repeat case_match; reflexivity.
Qed.

(** *** Reachable states *)

Lemma codes_in_range stats :
  length stats = 32%nat →
  symbol (code1 (scanStats 0 stats scan0).2) ∧
  symbol (code2 (scanStats 0 stats scan0).2) ∧
  symbol (code3 (scanStats 0 stats scan0).2).
Proof.
  intros Hlen.
  apply (scanStats_invariant stats
           (λ _ s, symbol (code1 s) ∧ symbol (code2 s) ∧ symbol (code3 s))).
  - unfold symbol. cbn. lia.
  - intros i x s Hx (S1 & S2 & S3).
    pose proof (lookup_lt_Some _ _ _ Hx) as Hi.
    assert (Si : symbol (wrap_byte (Z.of_nat i))).
    { rewrite wrap_byte_small by lia. unfold symbol. lia. }
    unfold scanStep. repeat case_match; cbn; auto.
Qed.

Lemma sum_insert (stats : list Z) i n v :
  stats !! i = Some n → sum (<[i := v]> stats) = sum stats - n + v.
Proof.
  unfold sum. revert i. induction stats as [|y l IH]; intros [|i] Hn; cbn in Hn;
    try discriminate.
  - injection Hn as ->. cbn. lia.
  - transitivity (y + (foldr Z.add 0 l - n + v));
      [exact (f_equal (Z.add y) (IH i Hn))|cbn [foldr]; lia].
Qed.

Lemma sum_nonneg (stats : list Z) :
  (∀ j y, stats !! j = Some y → 0 ≤ y) → 0 ≤ sum stats.
Proof.
  unfold sum. induction stats as [|z l IH]; intros Hnn; cbn [foldr]; [lia|].
  pose proof (Hnn 0%nat z eq_refl).
  pose proof (IH (λ j w Hw, Hnn (S j) w Hw)). lia.
Qed.

Lemma sum_lookup_le (stats : list Z) i n :
  (∀ j y, stats !! j = Some y → 0 ≤ y) → stats !! i = Some n →
  0 ≤ n ≤ sum stats.
Proof.
  revert i. induction stats as [|z l IH]; intros [|i] Hnn Hn; cbn in Hn;
    try discriminate.
  - injection Hn as ->. pose proof (Hnn 0%nat n eq_refl).
    pose proof (sum_nonneg l (λ j w Hw, Hnn (S j) w Hw)).
    unfold sum in *. cbn [foldr]. lia.
  - pose proof (Hnn 0%nat z eq_refl).
    pose proof (IH i (λ j w Hw, Hnn (S j) w Hw) Hn).
    unfold sum in *. cbn [foldr]. lia.
Qed.

Lemma sum_replicate_0 n : sum (replicate n 0) = 0.
Proof. unfold sum. induction n; cbn; lia. Qed.

Lemma stats_wf_replicate : stats_wf (replicate 32 0) = true.
Proof. reflexivity. Qed.

Lemma stats_wf_insert stats i v :
  stats_wf stats = true → 0 ≤ v < 256 → stats_wf (<[i := v]> stats) = true.
Proof.
  rewrite !stats_wf_spec. intros [Hlen Hb] Hv. split.
  - rewrite length_insert. exact Hlen.
  - intros j x Hx. destruct (decide (i = j)) as [->|Hne].
    + rewrite list_lookup_insert_eq in Hx by (apply lookup_lt_Some in Hx;
        rewrite length_insert in Hx; exact Hx).
      injection Hx as <-. exact Hv.
    + rewrite list_lookup_insert_ne in Hx by exact Hne. eapply Hb, Hx.
Qed.

Lemma adapted_reach q :
  length (commandStats q) = 32%nat →
  symbol (mode21 q) ∧ symbol (mode31 q) ∧ symbol (mode301 q) ∧
  symbol (mode41 q) ∧ symbol (mode401 q) ∧ symbol (mode4001 q) →
  stats_wf (commandStats (adapted q)) = true ∧
  sum (commandStats (adapted q)) = commandsSentSinceLastChange (adapted q) ∧
  symbol (mode21 (adapted q)) ∧ symbol (mode31 (adapted q)) ∧
  symbol (mode301 (adapted q)) ∧ symbol (mode41 (adapted q)) ∧
  symbol (mode401 (adapted q)) ∧ symbol (mode4001 (adapted q)).
Proof.
  intros Hlen (S21 & S31 & S301 & S41 & S401 & S4001).
  pose proof (adapted_fields q) as (Hz & Hc & Hf). cbn zeta in Hf.
  destruct (codes_in_range _ Hlen) as (C1 & C2 & C3).
  rewrite Hz, Hc, Hlen, sum_replicate_0.
  split; [reflexivity|]. split; [reflexivity|].
  repeat case_match; injection Hf as _ -> -> -> -> -> ->; auto 10.
Qed.

Lemma updatedCodeStatistics_reach pm code pm' :
  reach_inv pm → updatedCodeStatistics pm code = Ok pm' → reach_inv pm'.
Proof.
  intros (Hwf & Hst & Hsum & Hsch & Hslots) H.
  destruct (updatedCodeStatistics_keeps pm code pm' Hwf H) as (Hwf' & _).
  destruct (updatedCodeStatistics_sched pm code pm' Hsch H) as (Hsch' & _).
  split; [exact Hwf'|].
  cut (stats_wf (commandStats pm') = true ∧
       sum (commandStats pm') = commandsSentSinceLastChange pm' ∧
       symbol (mode21 pm') ∧ symbol (mode31 pm') ∧ symbol (mode301 pm') ∧
       symbol (mode41 pm') ∧ symbol (mode401 pm') ∧ symbol (mode4001 pm')).
  { intros (A & B & C). split; [exact A|]. split; [exact B|]. split; assumption. }
  destruct (updatedCodeStatistics_index _ _ _ H) as (Hc & n & Hn).
  rewrite (updatedCodeStatistics_unfold pm code n Hc Hn) in H. cbn zeta in H.
  pose proof Hst as Hst'. apply stats_wf_spec in Hst' as [Hlen Hb].
  destruct (sum_lookup_le (commandStats pm) (Z.to_nat code) n) as [Hn0 Hns];
    [intros j y Hy; specialize (Hb j y Hy); lia|exact Hn|].
  assert (Hcnt : 0 ≤ commandsSentSinceLastChange pm ≤ 100)
    by (unfold sched_inv in Hsch; lia).
  assert (Hl : length (commandStats (counted pm code n)) = 32%nat)
    by (cbn; rewrite length_insert; exact Hlen).
  assert (Hcounted :
    stats_wf (commandStats (counted pm code n)) = true ∧
    sum (commandStats (counted pm code n))
      = commandsSentSinceLastChange (counted pm code n)).
  { cbn. rewrite wrap_byte_small, wrap_int32_small by lia. split.
    - apply stats_wf_insert; [exact Hst|lia].
    - rewrite (sum_insert _ _ n) by exact Hn. lia. }
  repeat case_match; injection H as <-;
    lazymatch goal with
    | |- stats_wf (commandStats (adapted ?q)) = true ∧ _ =>
        apply (adapted_reach q Hl); exact Hslots
    | |- _ => destruct Hcounted; split; [assumption|]; split; [assumption|exact Hslots]
    end.
Qed.

Lemma step_reach c o c' : reach_inv c.1 → step c o = Ok c' → reach_inv c'.1.
Proof.
  intros Hinv H. destruct c as [pm bs], c' as [pm' bs'], o as [code|]; cbn in *.
  - eapply updatedCodeStatistics_reach; [exact Hinv|].
    eapply WriteCode_updates; exact H.
  - destruct (ReadCode pm bs) as [[[code pm1] bs1]|] eqn:E; [|discriminate].
    cbn in H. injection H as <- <-.
    eapply updatedCodeStatistics_reach; [exact Hinv|].
    eapply ReadCode_updates; exact E.
Qed.

Lemma run_reach ops : ∀ c c', reach_inv c.1 → run ops c = Ok c' → reach_inv c'.1.
Proof.
  induction ops as [|o ops IH]; intros c c' Hinv H; cbn [run] in H.
  - injection H as <-. exact Hinv.
  - destruct (step c o) as [c1|] eqn:E; [|discriminate]. cbn in H.
    eapply IH; [|exact H]. eapply step_reach; [exact Hinv|exact E].
Qed.

Lemma reach_inv_fresh w r r5 : reach_inv (newPointMetadata w r r5).
Proof.
  unfold reach_inv, coder_wf, symbol. cbn.
  split; [split; [lia|reflexivity]|]. split; [reflexivity|].
  split; [reflexivity|]. split; [apply sched_inv_fresh|].
  unfold codeWords.Value1, codeWords.Value2, codeWords.Value3. lia.
Qed.

(** X21: in every state a run of [WriteCode]/[ReadCode] calls reaches from a
    freshly constructed one, the mode is 1..4, the histogram has its 32
    byte entries, its total equals [commandsSentSinceLastChange] and is at
    most 100 (so no histogram byte ever wraps), and all six hot slots hold
    symbols in 0..31. *)
Theorem reachable_state_invariant
    (w : option writeBitsFn) (r r5 : option readFn) (bs0 : BitStream)
    (ops : list op) (pm : pointMetadata) (bs : BitStream) :
  run ops (newPointMetadata w r r5, bs0) = Ok (pm, bs) →
  1 ≤ mode pm ≤ 4 ∧
  stats_wf (commandStats pm) = true ∧
  sum (commandStats pm) = commandsSentSinceLastChange pm ∧
  0 ≤ commandsSentSinceLastChange pm ≤ 100 ∧
  symbol (mode21 pm) ∧ symbol (mode31 pm) ∧ symbol (mode301 pm) ∧
  symbol (mode41 pm) ∧ symbol (mode401 pm) ∧ symbol (mode4001 pm).
Proof.
  intros H.
  pose proof (run_reach ops (newPointMetadata w r r5, bs0) (pm, bs)
                (reach_inv_fresh w r r5) H) as ((Hm & _) & Hst & Hsum & Hsch & Hslots).
  cbn [fst] in *. split; [exact Hm|]. split; [exact Hst|]. split; [exact Hsum|].
  split; [unfold sched_inv in Hsch; lia|exact Hslots].
Qed.

Lemma reachable_state_invariant_witness :
  ∃ pm bs, run (replicate 30 (Write 20) ++ [Write 7]) (encoder0, []) = Ok (pm, bs) ∧
           sum (commandStats pm) = commandsSentSinceLastChange pm.
Proof.
  destruct (run (replicate 30 (Write 20) ++ [Write 7]) (encoder0, []))
    as [[pm bs]|p] eqn:H; [|vm_compute in H; discriminate].
  exists pm, bs. split; [reflexivity|].
  apply (reachable_state_invariant (Some bs_writeBits) None None []
           (replicate 30 (Write 20) ++ [Write 7]) pm bs H).
Defined.

(** X22: a decoder state reached from a fresh one, reading from any stream
    whatever its bits, either runs out of bits or returns a symbol in
    0..31 after consuming between 1 and 8 bits; it never fails in any other
    way. *)
Theorem ReadCode_fails_only_on_exhaustion
    (bs0 : BitStream) (ops : list op) (pm : pointMetadata) (bs bits : BitStream) :
  run ops (decoder0, bs0) = Ok (pm, bs) →
  ReadCode pm bits = Panic BufferExhausted ∨
  ∃ code pm' taken rest,
    ReadCode pm bits = Ok (code, pm', rest) ∧ symbol code ∧
    bits = taken ++ rest ∧ (1 ≤ length taken ≤ 8)%nat.
Proof.
  intros H.
  pose proof (run_reach ops (decoder0, bs0) (pm, bs)
                (reach_inv_fresh _ _ _) H) as Hinv. cbn [fst] in Hinv.
  assert (Hio : readBit pm = Some bs_readBit ∧ readBits5 pm = Some bs_readBits5).
  { clear Hinv. revert H. generalize (eq_refl : readBit decoder0 = Some bs_readBit).
    generalize (eq_refl : readBits5 decoder0 = Some bs_readBits5).
    assert (Hd : coder_wf decoder0) by (split; [cbn; lia|reflexivity]).
    revert Hd. generalize decoder0 as d. revert bs0.
    induction ops as [|o ops IH]; intros bs0 d Hd H5 H1 H; cbn [run] in H.
    - injection H as <- <-. auto.
    - destruct (step (d, bs0) o) as [[d1 bs1]|] eqn:E; [|discriminate]. cbn in H.
      assert (Hu : ∃ code, updatedCodeStatistics d code = Ok d1).
      { destruct o as [code|]; cbn in E.
        - exists code. eapply WriteCode_updates; exact E.
        - destruct (ReadCode d bs0) as [[[code d2] bs2]|] eqn:E2; [|discriminate].
          cbn in E. injection E as <- <-. exists code.
          eapply ReadCode_updates; exact E2. }
      destruct Hu as [code Hu].
      destruct (updatedCodeStatistics_keeps d code d1 Hd Hu) as (Hd1 & _ & R1 & R5).
      eapply (IH bs1 d1); [exact Hd1|congruence|congruence|exact H]. }
  destruct Hio as [Hr Hr5].
  destruct Hinv as ((Hm & Hlen) & Hst & _ & _ & S21 & S31 & S301 & S41 & S401 & S4001).
  assert (Hupd : ∀ code, symbol code → ∃ pm', updatedCodeStatistics pm code = Ok pm').
  { intros code Hc. apply updatedCodeStatistics_total. unfold symbol in Hc. lia. }
  assert (H5 : ∀ tl, bs_readBits5 tl = Panic BufferExhausted ∨
                ∃ v t5 rest, bs_readBits5 tl = Ok (v, rest) ∧ symbol v ∧
                             tl = t5 ++ rest ∧ length t5 = 5%nat).
  { intros tl. unfold bs_readBits5.
    destruct tl as [|b4 [|b3 [|b2 [|b1 [|b0 rest]]]]]; try (left; reflexivity).
    right. exists (bits_value [b4; b3; b2; b1; b0]), [b4; b3; b2; b1; b0], rest.
    split; [reflexivity|]. split; [|split; reflexivity].
    unfold symbol. destruct b4, b3, b2, b1, b0; vm_compute; split; congruence. }
  assert (Hb : ∀ tl, bs_readBit tl = Panic BufferExhausted ∨
                ∃ b rest, tl = b :: rest ∧ bs_readBit tl = Ok (Z.b2z b, rest)).
  { intros [|b rest]; [left; reflexivity|right; eauto]. }
  unfold ReadCode, call_readBit, call_readBits5. rewrite Hr, Hr5.
  assert (Fin : ∀ code taken rest, symbol code → (1 ≤ length taken ≤ 8)%nat →
            bits = taken ++ rest →
            (pm1 ← updatedCodeStatistics pm code; Ok (code, pm1, rest))
              = Panic BufferExhausted ∨
            ∃ code0 pm' taken0 rest0,
              (pm1 ← updatedCodeStatistics pm code; Ok (code, pm1, rest))
                = Ok (code0, pm', rest0) ∧ symbol code0 ∧
              bits = taken0 ++ rest0 ∧ (1 ≤ length taken0 ≤ 8)%nat).
  { intros code taken rest Hc Hl E. destruct (Hupd code Hc) as [pm' ->].
    right. exists code, pm', taken, rest. auto. }
  assert (Fin5 : ∀ pre tl, (length pre ≤ 3)%nat → bits = pre ++ tl →
            ('(code, bs1) ← bs_readBits5 tl;
             pm1 ← updatedCodeStatistics pm code; Ok (code, pm1, bs1))
              = Panic BufferExhausted ∨
            ∃ code0 pm' taken0 rest0,
              ('(code, bs1) ← bs_readBits5 tl;
               pm1 ← updatedCodeStatistics pm code; Ok (code, pm1, bs1))
                = Ok (code0, pm', rest0) ∧ symbol code0 ∧
              bits = taken0 ++ rest0 ∧ (1 ≤ length taken0 ≤ 8)%nat).
  { intros pre tl Hp E. destruct (H5 tl) as [->|(v & t5 & rest & -> & Hv & -> & Hl5)];
      [left; reflexivity|].
    cbn [mbind result_bind]. apply (Fin v (pre ++ t5) rest Hv).
    - rewrite length_app. lia.
    - rewrite E, app_assoc. reflexivity. }
  destruct (mode_cases (mode pm)) as [-> | [-> | [-> | [-> | N]]]]; [..|contradiction].
  - apply (Fin5 [] bits); [cbn; lia|reflexivity].
  - destruct (Hb bits) as [->|(b1 & t1 & -> & ->)]; [left; reflexivity|].
    cbn [mbind result_bind]. destruct b1; cbn [Z.b2z Z.eqb Pos.eqb].
    + apply (Fin _ [true] t1 S21); [cbn; lia|reflexivity].
    + apply (Fin5 [false] t1); [cbn; lia|reflexivity].
  - destruct (Hb bits) as [->|(b1 & t1 & -> & ->)]; [left; reflexivity|].
    cbn [mbind result_bind]. destruct b1; cbn [Z.b2z Z.eqb Pos.eqb].
    + apply (Fin _ [true] t1 S31); [cbn; lia|reflexivity].
    + destruct (Hb t1) as [->|(b2 & t2 & -> & ->)]; [left; reflexivity|].
      cbn [mbind result_bind]. destruct b2; cbn [Z.b2z Z.eqb Pos.eqb].
      * apply (Fin _ [false; true] t2 S301); [cbn; lia|reflexivity].
      * apply (Fin5 [false; false] t2); [cbn; lia|reflexivity].
  - destruct (Hb bits) as [->|(b1 & t1 & -> & ->)]; [left; reflexivity|].
    cbn [mbind result_bind]. destruct b1; cbn [Z.b2z Z.eqb Pos.eqb].
    + apply (Fin _ [true] t1 S41); [cbn; lia|reflexivity].
    + destruct (Hb t1) as [->|(b2 & t2 & -> & ->)]; [left; reflexivity|].
      cbn [mbind result_bind]. destruct b2; cbn [Z.b2z Z.eqb Pos.eqb].
      * apply (Fin _ [false; true] t2 S401); [cbn; lia|reflexivity].
      * destruct (Hb t2) as [->|(b3 & t3 & -> & ->)]; [left; reflexivity|].
        cbn [mbind result_bind]. destruct b3; cbn [Z.b2z Z.eqb Pos.eqb].
        -- apply (Fin _ [false; false; true] t3 S4001); [cbn; lia|reflexivity].
        -- apply (Fin5 [false; false; false] t3); [cbn; lia|reflexivity].
Qed.

(** *** Encoded sizes *)

Lemma wsum_ext (f g : Z → Z) l : ∀ k, (∀ j, f j = g j) → wsum f k l = wsum g k l.
Proof.
  induction l as [|y l IH]; intros k E; cbn [wsum]; [reflexivity|].
  rewrite E, (IH (k + 1) E). reflexivity.
Qed.

Lemma wsum_const c l : ∀ k, wsum (λ _, c) k l = c * sum l.
Proof.
  unfold sum. induction l as [|y l IH]; intros k; cbn [wsum foldr]; [lia|].
  rewrite IH. lia.
Qed.

Lemma entry_nil i : entry [] i = 0.
Proof. unfold entry. destruct (0 <=? i); reflexivity. Qed.

Lemma entry_cons y l i :
  entry (y :: l) i = if i =? 0 then y else entry l (i - 1).
Proof.
  unfold entry. destruct (Z.eqb_spec i 0) as [->|Hne]; [reflexivity|].
  destruct (Z.leb_spec 0 i), (Z.leb_spec 0 (i - 1)); try lia; try reflexivity.
  replace (Z.to_nat i) with (S (Z.to_nat (i - 1))) by lia. reflexivity.
Qed.

Lemma wsum_update (h a : Z) (g : Z → Z) l : ∀ k,
  wsum (λ j, if j =? h then a else g j) k l
  = wsum g k l + (a - g h) * entry l (h - k).
Proof.
  induction l as [|y l IH]; intros k; cbn [wsum].
  - rewrite entry_nil. lia.
  - rewrite IH, entry_cons.
    replace (h - k - 1) with (h - (k + 1)) by lia.
    destruct (Z.eqb_spec k h) as [->|Hne].
    + rewrite Z.sub_diag. cbn [Z.eqb].
      replace (entry l (h - (h + 1))) with 0; [ring|].
      unfold entry. destruct (Z.leb_spec 0 (h - (h + 1))); [lia|reflexivity].
    + destruct (Z.eqb_spec (h - k) 0); [lia|]. ring.
Qed.

Lemma length_spelling q S :
  Z.of_nat (length (spelling q S)) =
    match mode q with
    | 1 => 5
    | 2 => if S =? mode21 q then 1 else 6
    | 3 => if S =? mode31 q then 1 else if S =? mode301 q then 2 else 7
    | _ => if S =? mode41 q then 1 else if S =? mode401 q then 2
           else if S =? mode4001 q then 3 else 8
    end.
Proof. unfold spelling. repeat case_match; reflexivity. Qed.

Lemma cost_closed q stats :
  cost q stats =
    match mode q with
    | 1 => 5 * sum stats
    | 2 => 6 * sum stats - 5 * entry stats (mode21 q)
    | 3 =>
        7 * sum stats
        + (2 - 7) * entry stats (mode301 q)
        + (1 - (if mode31 q =? mode301 q then 2 else 7)) * entry stats (mode31 q)
    | _ =>
        8 * sum stats
        + (3 - 8) * entry stats (mode4001 q)
        + (2 - (if mode401 q =? mode4001 q then 3 else 8)) * entry stats (mode401 q)
        + (1 - (if mode41 q =? mode401 q then 2
                else if mode41 q =? mode4001 q then 3 else 8))
          * entry stats (mode41 q)
    end.
Proof.
  unfold cost.
  rewrite (wsum_ext _ _ stats 0 (length_spelling q)).
  destruct (mode_cases (mode q)) as [E | [E | [E | [E | N]]]]; try rewrite E.
  - rewrite wsum_const. reflexivity.
  - rewrite (wsum_update (mode21 q) 1 (λ _, 6)), wsum_const, Z.sub_0_r. lia.
  - rewrite (wsum_update (mode31 q) 1 (λ j, if j =? mode301 q then 2 else 7)).
    rewrite (wsum_update (mode301 q) 2 (λ _, 7)), wsum_const, !Z.sub_0_r. lia.
  - rewrite (wsum_update (mode41 q) 1
               (λ j, if j =? mode401 q then 2 else if j =? mode4001 q then 3 else 8)).
    rewrite (wsum_update (mode401 q) 2 (λ j, if j =? mode4001 q then 3 else 8)).
    rewrite (wsum_update (mode4001 q) 3 (λ _, 8)), wsum_const, !Z.sub_0_r. lia.
  - destruct (mode q) as [|p|p]; try lia.
    + rewrite (wsum_update (mode41 q) 1
                 (λ j, if j =? mode401 q then 2 else if j =? mode4001 q then 3 else 8)).
      rewrite (wsum_update (mode401 q) 2 (λ j, if j =? mode4001 q then 3 else 8)).
      rewrite (wsum_update (mode4001 q) 3 (λ _, 8)), wsum_const, !Z.sub_0_r. lia.
    + destruct p as [[p|p|]|[p|p|]|]; try lia;
        try (destruct p; try lia);
        rewrite (wsum_update (mode41 q) 1
                   (λ j, if j =? mode401 q then 2 else if j =? mode4001 q then 3 else 8)),
                (wsum_update (mode401 q) 2 (λ j, if j =? mode4001 q then 3 else 8)),
                (wsum_update (mode4001 q) 3 (λ _, 8)), wsum_const, !Z.sub_0_r; lia.
    + rewrite (wsum_update (mode41 q) 1
                 (λ j, if j =? mode401 q then 2 else if j =? mode4001 q then 3 else 8)).
      rewrite (wsum_update (mode401 q) 2 (λ j, if j =? mode4001 q then 3 else 8)).
      rewrite (wsum_update (mode4001 q) 3 (λ _, 8)), wsum_const, !Z.sub_0_r. lia.
Qed.

Lemma entry_bounds stats h :
  stats_wf stats = true →
  0 ≤ entry stats h ∧
  entry stats h ≤ count1 (scanStats 0 stats scan0).2 ∧
  ((0 < count1 (scanStats 0 stats scan0).2 → h ≠ code1 (scanStats 0 stats scan0).2) →
   entry stats h ≤ count2 (scanStats 0 stats scan0).2) ∧
  ((0 < count1 (scanStats 0 stats scan0).2 → h ≠ code1 (scanStats 0 stats scan0).2) →
   (0 < count2 (scanStats 0 stats scan0).2 → h ≠ code2 (scanStats 0 stats scan0).2) →
   entry stats h ≤ count3 (scanStats 0 stats scan0).2).
Proof.
  intros Hwf.
  pose proof (counts_inv_final stats Hwf) as (H3 & H32 & H21 & _).
  pose proof (codes_inv_final stats Hwf) as (_ & _ & _ & _ & _ & _ & C1 & C2 & C3).
  apply stats_wf_spec in Hwf as [Hlen Hb].
  unfold entry. destruct (Z.leb_spec 0 h) as [Hh|Hh]; [|lia].
  destruct (stats !! Z.to_nat h) as [y|] eqn:Ey; cbn [default from_option id];
    [unfold id|lia].
  pose proof (lookup_lt_Some _ _ _ Ey) as Hlt.
  pose proof (Hb _ _ Ey). pose proof (C1 _ _ Hlt Ey). pose proof (C2 _ _ Hlt Ey).
  pose proof (C3 _ _ Hlt Ey). pose proof (Z2Nat.id h Hh). lia.
Qed.

Lemma entry_codes stats :
  stats_wf stats = true →
  (0 < count1 (scanStats 0 stats scan0).2 →
     entry stats (code1 (scanStats 0 stats scan0).2) = count1 (scanStats 0 stats scan0).2) ∧
  (0 < count2 (scanStats 0 stats scan0).2 →
     entry stats (code2 (scanStats 0 stats scan0).2) = count2 (scanStats 0 stats scan0).2 ∧
     code2 (scanStats 0 stats scan0).2 ≠ code1 (scanStats 0 stats scan0).2) ∧
  (0 < count3 (scanStats 0 stats scan0).2 →
     entry stats (code3 (scanStats 0 stats scan0).2) = count3 (scanStats 0 stats scan0).2 ∧
     code3 (scanStats 0 stats scan0).2 ≠ code1 (scanStats 0 stats scan0).2 ∧
     code3 (scanStats 0 stats scan0).2 ≠ code2 (scanStats 0 stats scan0).2).
Proof.
  intros Hwf.
  pose proof (codes_inv_final stats Hwf) as (B1 & L1 & B2 & L2 & B3 & L3 & _).
  unfold entry. split_and!; intros P.
  - specialize (B1 P). rewrite (L1 P). destruct (Z.leb_spec 0 (code1 (scanStats 0 stats scan0).2));
      [reflexivity|lia].
  - specialize (B2 P). rewrite (L2 P).
    destruct (Z.leb_spec 0 (code2 (scanStats 0 stats scan0).2)); [|lia].
    split; [reflexivity|apply B2].
  - specialize (B3 P). rewrite (L3 P).
    destruct (Z.leb_spec 0 (code3 (scanStats 0 stats scan0).2)); [|lia].
    split; [reflexivity|apply B3].
Qed.

(** Sums of two and of three distinct entries of a table whose largest
    entries are [c1 ≥ c2 ≥ c3], held at the slots [k1] and [k2]. *)
Lemma hot_slots_bound (e : Z → Z) (c1 c2 c3 k1 k2 : Z) :
  c3 ≤ c2 → c2 ≤ c1 →
  (∀ h, e h ≤ c1 ∧ (h ≠ k1 → e h ≤ c2) ∧ (h ≠ k1 → h ≠ k2 → e h ≤ c3)) →
  (∀ a b, a ≠ b → e a + e b ≤ c1 + c2) ∧
  (∀ a b c, a ≠ b → a ≠ c → b ≠ c → e a + e b + e c ≤ c1 + c2 + c3).
Proof.
  intros H32 H21 Hb. split.
  - intros a b Nab.
    destruct (Hb a) as (A1 & A2 & _). destruct (Hb b) as (B1 & B2 & _).
    destruct (decide (a = k1)) as [Ea|Na].
    + assert (Nb : b ≠ k1) by congruence. specialize (B2 Nb). clear - A1 B2. lia.
    + specialize (A2 Na). clear - A2 B1. lia.
  - intros a b c Nab Nac Nbc.
    destruct (Hb a) as (A1 & A2 & A3). destruct (Hb b) as (B1 & B2 & B3).
    destruct (Hb c) as (C1 & C2 & C3).
    assert (Hone : ∀ x y z, x ≠ y → x ≠ z → y ≠ z →
              e x ≤ c1 → (y ≠ k1 → e y ≤ c2) → (z ≠ k1 → e z ≤ c2) →
              (y ≠ k1 → y ≠ k2 → e y ≤ c3) → (z ≠ k1 → z ≠ k2 → e z ≤ c3) →
              x = k1 → e x + e y + e z ≤ c1 + c2 + c3).
    { intros x y z Nxy Nxz Nyz X1 Y2 Z2 Y3 Z3 Ex.
      assert (Ny : y ≠ k1) by congruence. assert (Nz : z ≠ k1) by congruence.
      specialize (Y2 Ny). specialize (Z2 Nz). specialize (Y3 Ny). specialize (Z3 Nz).
      destruct (decide (y = k2)) as [Ey|Ny2].
      - assert (Nz2 : z ≠ k2) by congruence. specialize (Z3 Nz2).
        clear - X1 Y2 Z3. lia.
      - specialize (Y3 Ny2). clear - X1 Y3 Z2. lia. }
    destruct (decide (a = k1)) as [Ea|Na]; [apply Hone; auto|].
    destruct (decide (b = k1)) as [Eb|Nb];
      [pose proof (Hone b a c) as P; cut (e b + e a + e c ≤ c1 + c2 + c3);
       [lia|apply P; auto]|].
    destruct (decide (c = k1)) as [Ec|Nc];
      [pose proof (Hone c a b) as P; cut (e c + e a + e b ≤ c1 + c2 + c3);
       [lia|apply P; auto]|].
    specialize (A2 Na). specialize (B2 Nb). specialize (C2 Nc).
    specialize (A3 Na). specialize (B3 Nb). specialize (C3 Nc).
    destruct (decide (a = k2)) as [Ea2|Na2].
    + assert (Nb2 : b ≠ k2) by congruence. assert (Nc2 : c ≠ k2) by congruence.
      specialize (B3 Nb2). specialize (C3 Nc2). clear - A1 B3 C3 H32 H21. lia.
    + specialize (A3 Na2). destruct (decide (b = k2)) as [Eb2|Nb2].
      * assert (Nc2 : c ≠ k2) by congruence. specialize (C3 Nc2).
        clear - A3 B1 C3 H32 H21. lia.
      * specialize (B3 Nb2). clear - A3 B3 C1 H32 H21. lia.
Qed.

(** X23: the state [adaptCommands] installs spells the symbols just
    counted in as few bits as any mode with any choice of hot slots would:
    the number of bits [WriteCode] emits for the counted symbols is the
    [minSize] that [adaptCommands] computed, and no state with a mode in
    1..4 gives a smaller number. *)
Theorem adaptCommands_minimises_cost (pm : pointMetadata) :
  stats_wf (commandStats pm) = true →
  ∃ pm', adaptCommands pm = Ok pm' ∧
    cost pm' (commandStats pm) = minSize (scanStats 0 (commandStats pm) scan0).2 ∧
    ∀ q, 1 ≤ mode q ≤ 4 → cost pm' (commandStats pm) ≤ cost q (commandStats pm).
Proof.
  intros Hwf.
  exists (adapted pm). split; [apply adaptCommands_adapted|].
  pose proof (counts_inv_final _ Hwf)
    as (H3 & H32 & H21 & H1 & Ht & Hsum & Hub & _).
  pose proof (entry_codes _ Hwf) as (E1 & E2 & E3).
  pose proof (adapted_fields pm) as (_ & _ & Hmode). cbn zeta in Hmode.
  pose proof (minSize_spec (scanStats 0 (commandStats pm) scan0).2) as Hmin.
  unfold mode1Size, mode2Size, mode3Size, mode4Size in Hmode, Hmin.
  set (s := (scanStats 0 (commandStats pm) scan0).2) in *.
  pose proof (stats_wf_spec (commandStats pm)) as [Hw _].
  destruct (Hw Hwf) as [Hlen _]. clear Hw.
  rewrite take_ge in Ht by lia. rewrite Hlen in Hub.
  rewrite !wrap_int32_small in Hmode by lia.
  rewrite !wrap_int32_small in Hmin by lia.
  assert (Hq : ∀ q, 1 ≤ mode q ≤ 4 → minSize s ≤ cost q (commandStats pm)).
  { intros q Hmq. rewrite cost_closed, <- Ht. clear Hmode E1 E2 E3 Hsum Hub Hlen.
    assert (H0 : ∀ h, 0 ≤ entry (commandStats pm) h)
      by (intros h; apply (entry_bounds _ h Hwf)).
    assert (Hb : ∀ h, entry (commandStats pm) h ≤ count1 s ∧
              (h ≠ code1 s → entry (commandStats pm) h ≤ count2 s) ∧
              (h ≠ code1 s → h ≠ code2 s → entry (commandStats pm) h ≤ count3 s)).
    { intros h. destruct (entry_bounds _ h Hwf) as (_ & B1 & B2 & B3).
      fold s in B1, B2, B3. split; [exact B1|]. split.
      - intros N1. apply B2. intros _. exact N1.
      - intros N1 N2. apply B3; intros _; assumption. }
    destruct (hot_slots_bound _ _ _ _ _ _ H32 H21 Hb) as [Hpair Htriple].
    pose proof (H0 (mode21 q)) as Z21. pose proof (H0 (mode31 q)) as Z31.
    pose proof (H0 (mode301 q)) as Z301. pose proof (H0 (mode41 q)) as Z41.
    pose proof (H0 (mode401 q)) as Z401. pose proof (H0 (mode4001 q)) as Z4001.
    pose proof (proj1 (Hb (mode21 q))) as U21.
    pose proof (proj1 (Hb (mode31 q))) as U31.
    pose proof (proj1 (Hb (mode301 q))) as U301.
    pose proof (proj1 (Hb (mode41 q))) as U41.
    pose proof (proj1 (Hb (mode401 q))) as U401.
    pose proof (proj1 (Hb (mode4001 q))) as U4001.
    clear H0 Hb Hwf.
    destruct (mode_cases (mode q)) as [-> | [-> | [-> | [-> | N]]]];
      [..|contradiction]; cbv iota.
    - clear - Hmin. lia.
    - clear - Hmin Z21 U21. lia.
    - destruct (Z.eqb_spec (mode31 q) (mode301 q)) as [Eq|Nq]; cbv iota.
      + rewrite Eq. clear - Hmin H3 H32 H21 Z301 U301. lia.
      + pose proof (Hpair _ _ Nq) as P. clear - Hmin H3 H32 H21 Z31 Z301 U31 P. lia.
    - destruct (Z.eqb_spec (mode401 q) (mode4001 q)) as [Eq1|Nq1];
        destruct (Z.eqb_spec (mode41 q) (mode401 q)) as [Eq2|Nq2];
        destruct (Z.eqb_spec (mode41 q) (mode4001 q)) as [Eq3|Nq3];
        try congruence; cbv iota.
      + rewrite Eq2, Eq1. clear - Hmin H3 H32 H21 Z4001 U4001. lia.
      + pose proof (Hpair _ _ Nq3) as P. rewrite Eq1.
        clear - Hmin H3 H32 H21 Z41 Z4001 U41 P. lia.
      + pose proof (Hpair _ _ Nq1) as P. rewrite Eq2.
        clear - Hmin H3 H32 H21 Z401 Z4001 U401 P. lia.
      + pose proof (Hpair _ _ Nq1) as P. rewrite Eq3.
        clear - Hmin H3 H32 H21 Z401 Z4001 U4001 P. lia.
      + pose proof (Hpair _ _ Nq2) as P. pose proof (Htriple _ _ _ Nq2 Nq3 Nq1) as Q.
        clear - Hmin H3 H32 H21 Z41 Z401 Z4001 U41 P Q. lia. }
  cut (cost (adapted pm) (commandStats pm) = minSize s).
  { intros Ec. split; [exact Ec|]. intros q Hmq. rewrite Ec. apply Hq, Hmq. }
  rewrite cost_closed, <- Ht. clear Hq.
  destruct (Z.eqb_spec (minSize s) (total s * 5)) as [M1|N1];
    [|destruct (Z.eqb_spec (minSize s)
                 (count1 s * 1 + (total s - count1 s) * 6)) as [M2|N2];
      [|destruct (Z.eqb_spec (minSize s)
                   (count1 s * 1 + count2 s * 2
                    + (total s - count1 s - count2 s) * 7)) as [M3|N3]]];
    injection Hmode as -> H21' H31' H301' H41' H401' H4001';
    rewrite ?H21', ?H31', ?H301', ?H41', ?H401', ?H4001'.
  - lia.
  - rewrite E1 by lia. lia.
  - assert (P2 : 0 < count2 s) by lia. assert (P1 : 0 < count1 s) by lia.
    destruct (E2 P2) as [-> Hne]. rewrite (E1 P1).
    destruct (Z.eqb_spec (code1 s) (code2 s)); [congruence|]. lia.
  - assert (P3 : 0 < count3 s) by lia. assert (P2 : 0 < count2 s) by lia.
    assert (P1 : 0 < count1 s) by lia.
    destruct (E3 P3) as (-> & Hne31 & Hne32). destruct (E2 P2) as [-> Hne21].
    rewrite (E1 P1).
    destruct (Z.eqb_spec (code2 s) (code3 s)); [congruence|].
    destruct (Z.eqb_spec (code1 s) (code2 s)); [congruence|].
    destruct (Z.eqb_spec (code1 s) (code3 s)); [congruence|]. lia.
Qed.

Lemma adaptCommands_minimises_cost_witness :
  stats_wf (commandStats encoder_six) = true ∧
  ∃ pm', adaptCommands encoder_six = Ok pm' ∧
         cost pm' (commandStats encoder_six) ≤ cost encoder_six (commandStats encoder_six).
Proof.
  split; [reflexivity|].
  destruct (adaptCommands_minimises_cost encoder_six eq_refl) as (pm' & Ha & _ & Hq).
  exists pm'. split; [exact Ha|]. apply Hq. cbn. lia.
Defined.

Lemma ReadCode_fails_only_on_exhaustion_witness :
  run [] (decoder0, []) = Ok (decoder0, []) ∧
  (ReadCode decoder0 [false; true] = Panic BufferExhausted ∨
   ∃ code pm' taken rest,
     ReadCode decoder0 [false; true] = Ok (code, pm', rest) ∧ symbol code ∧
     [false; true] = taken ++ rest ∧ (1 ≤ length taken ≤ 8)%nat).
Proof.
  split; [reflexivity|].
  apply (ReadCode_fails_only_on_exhaustion [] [] decoder0 [] [false; true]).
  reflexivity.
Defined.

Lemma writeCodes_readCodes_lockstep_witness :
  ∃ bits enc',
    writeCodes [20; 20; 7; 20; 20; 20; 20; 0] encoder0 [] = Ok (enc', [] ++ bits) ∧
    ∀ rest, ∃ dec',
      readCodes 8 decoder0 (bits ++ rest)
        = Ok ([20; 20; 7; 20; 20; 20; 20; 0], dec', rest) ∧
      same_coder enc' dec'.
Proof.
  apply (writeCodes_readCodes_lockstep [20; 20; 7; 20; 20; 20; 20; 0]
           encoder0 decoder0 []);
    [reflexivity|reflexivity|reflexivity|repeat split
    |split; [cbn; lia|reflexivity]|repeat constructor; lia].
Defined.

End TsscRunProps.

(** ** metadata.DataRow: construction, assignment, reads by name, typed reads *)

Module DataRowOpsProps.
Import Metadata DataRowOps.

Section DataRow.
Context {DataTable DataColumn V : Type}.
Variable Column : DataTable → Z → option DataColumn.
Variable TableName : DataTable → string.
Variable ColumnName : DataColumn → string.
Variable ColumnType : DataColumn → Z.
Variable Computed : DataColumn → bool.
Variable ColumnCount : DataTable → nat.
Variable ColumnByName : DataTable → string → option DataColumn.
Variable Index : DataColumn → Z.
Variable DataTypeString : Z.
Variable asString : V → option string.

Local Abbreviation Row := (@DataRow DataTable V).

Lemma validate_read (dr : Row) i targetType :
  targetType = -1 ∨ (∃ c, Column (parent dr) i = Some c ∧ ColumnType c = targetType) →
  validateColumnType Column TableName ColumnName ColumnType Computed dr i targetType true
  = match Column (parent dr) i with
    | Some c => Return (Some c) None
    | None => Return None (Some (ColumnIndexOutOfRange i (TableName (parent dr))))
    end.
Proof.
  intros Ht. unfold validateColumnType.
  destruct (Column (parent dr) i) as [c|]; [|reflexivity].
  destruct Ht as [->|(c' & [= <-] & <-)]; cbn.
  - reflexivity.
  - rewrite Z.eqb_refl, andb_false_r. reflexivity.
Qed.

(** X25: on a row made by [newDataRow], for a table whose columns all have
    an index below its column count, [Value] returns [nil] without error
    at every column and the "out of range" error at every other index; it
    never panics. *)
Theorem newDataRow_reads_nil (t : DataTable) (i : Z) :
  (∀ j c, Column t j = Some c → 0 ≤ j < Z.of_nat (ColumnCount t)) →
  Value Column TableName ColumnName ColumnType Computed
    (newDataRow ColumnCount t : Row) i =
    match Column t i with
    | Some _ => Return None None
    | None => Return None (Some (ColumnIndexOutOfRange i (TableName t)))
    end.
Proof.
  intros Hcols. unfold Value.
  rewrite validate_read by (left; reflexivity). unfold newDataRow.
  cbn [parent values].
  destruct (Column t i) as [c|] eqn:Ec; [|reflexivity].
  destruct (Computed c); [reflexivity|].
  specialize (Hcols i c Ec).
  destruct (Z.leb_spec 0 i); [|lia].
  rewrite lookup_replicate_2 by lia. reflexivity.
Qed.

Lemma SetValue_ok (dr : Row) i c v :
  Column (parent dr) i = Some c → Computed c = false →
  0 ≤ i < Z.of_nat (length (values dr)) →
  SetValue Column TableName ColumnName ColumnType Computed dr i v
  = Return (mkDataRow (parent dr) (<[Z.to_nat i := v]> (values dr))) None.
Proof.
  intros Hc Hcomp Hi. unfold SetValue, validateColumnType, cell.
  rewrite Hc, Hcomp. cbn.
  destruct (Z.leb_spec 0 i); [|lia].
  destruct (lookup_lt_is_Some_2 (values dr) (Z.to_nat i)) as [x ->]; [lia|].
  reflexivity.
Qed.

(** X26: assigning a value to a column that is not computed, in a row that
    has a cell for it, succeeds; reading the column back with [Value] gives
    the value assigned, and every other index reads as before. *)
Theorem SetValue_Value_round_trip (dr : Row) (i : Z) (c : DataColumn) (v : option V) :
  Column (parent dr) i = Some c → Computed c = false →
  0 ≤ i < Z.of_nat (length (values dr)) →
  ∃ dr',
    SetValue Column TableName ColumnName ColumnType Computed dr i v
      = Return dr' None ∧
    Value Column TableName ColumnName ColumnType Computed dr' i = Return v None ∧
    parent dr' = parent dr ∧ length (values dr') = length (values dr) ∧
    ∀ j, j ≠ i →
      Value Column TableName ColumnName ColumnType Computed dr' j
      = Value Column TableName ColumnName ColumnType Computed dr j.
Proof.
  intros Hc Hcomp Hi. eexists. split; [apply (SetValue_ok dr i c v Hc Hcomp Hi)|].
  split; [|split; [reflexivity|split; [apply length_insert|]]].
  - unfold Value. rewrite validate_read by (left; reflexivity).
    cbn [parent values]. rewrite Hc, Hcomp.
    destruct (Z.leb_spec 0 i); [|lia].
    rewrite list_lookup_insert_eq by lia. reflexivity.
  - intros j Hj. unfold Value. rewrite !validate_read by (left; reflexivity).
    cbn [parent values].
    destruct (Column (parent dr) j) as [cj|]; [|reflexivity].
    destruct (Computed cj); [reflexivity|].
    destruct (Z.leb_spec 0 j); [|reflexivity].
    rewrite list_lookup_insert_ne by lia. reflexivity.
Qed.

(** X27: an assignment that fails leaves the row as it was: [SetValue] at
    an index that is not a column, and [SetValueByName] with an unknown
    name, return the row unchanged with the error; [SetValue] on a
    computed column panics. *)
Theorem SetValue_failures (dr : Row) (i : Z) (name : string) (v : option V) :
  (Column (parent dr) i = None →
     SetValue Column TableName ColumnName ColumnType Computed dr i v
     = Return dr (Some (ColumnIndexOutOfRange i (TableName (parent dr))))) ∧
  (ColumnByName (parent dr) name = None →
     SetValueByName Column TableName ColumnName ColumnType Computed
       ColumnByName Index dr name v
     = Return dr (Some (ColumnNameNotFound name (TableName (parent dr))))) ∧
  (∀ c, Column (parent dr) i = Some c → Computed c = true →
     SetValue Column TableName ColumnName ColumnType Computed dr i v
     = Panicked (CannotAssignComputed (ColumnName c) (TableName (parent dr)))).
Proof.
  split_and!.
  - intros Hc. unfold SetValue, validateColumnType. rewrite Hc. reflexivity.
  - intros Hn. unfold SetValueByName, getColumnIndex. rewrite Hn. reflexivity.
  - intros c Hc Hcomp. unfold SetValue, validateColumnType.
    rewrite Hc, Hcomp. reflexivity.
Qed.

(** X28: reads and assignments by name go through the index of the column
    found: after [SetValueByName] on a column that is not computed,
    [ValueByName] with the same name returns the value assigned; an unknown
    name gives the "not found" error. *)
Theorem SetValueByName_ValueByName (dr : Row) (name : string) (c : DataColumn)
    (v : option V) :
  ColumnByName (parent dr) name = Some c →
  Column (parent dr) (Index c) = Some c → Computed c = false →
  0 ≤ Index c < Z.of_nat (length (values dr)) →
  (∃ dr', SetValueByName Column TableName ColumnName ColumnType Computed
            ColumnByName Index dr name v = Return dr' None ∧
          ValueByName TableName ColumnByName Index dr' name = Return v None) ∧
  (∀ other, ColumnByName (parent dr) other = None →
     ValueByName TableName ColumnByName Index dr other
     = Return None (Some (ColumnNameNotFound other (TableName (parent dr))))).
Proof.
  intros Hn Hc Hcomp Hi. split.
  - eexists. split.
    + unfold SetValueByName, getColumnIndex. rewrite Hn.
      apply (SetValue_ok dr (Index c) c v Hc Hcomp Hi).
    + unfold ValueByName, getColumnIndex, cell. cbn [parent values]. rewrite Hn.
      destruct (Z.leb_spec 0 (Index c)); [|lia].
      rewrite list_lookup_insert_eq by lia. reflexivity.
  - intros other Ho. unfold ValueByName, getColumnIndex. rewrite Ho. reflexivity.
Qed.

(** X29: [StringValue] on a column whose type is not [DataType.String]
    panics instead of returning an error. On a String column it panics on
    the type assertion when the column is computed or the cell is [nil],
    and returns the cell's string when the cell holds one; at an index that
    is not a column it returns the empty string with the "out of range"
    error. *)
Theorem StringValue_outcomes (dr : Row) (i : Z) :
  0 ≤ DataTypeString →
  (Column (parent dr) i = None →
     StringValue Column TableName ColumnName ColumnType Computed DataTypeString
       asString dr i
     = TypedReturn ""%string
         (Some (ColumnIndexOutOfRange i (TableName (parent dr))))) ∧
  (∀ c, Column (parent dr) i = Some c → ColumnType c ≠ DataTypeString →
     StringValue Column TableName ColumnName ColumnType Computed DataTypeString
       asString dr i
     = TypedPanicked (CannotReadOrAssign true DataTypeString (ColumnName c)
                        (TableName (parent dr)) (ColumnType c))) ∧
  (∀ c, Column (parent dr) i = Some c → ColumnType c = DataTypeString →
     Computed c = true →
     StringValue Column TableName ColumnName ColumnType Computed DataTypeString
       asString dr i
     = InterfaceConversionPanic) ∧
  (∀ c, Column (parent dr) i = Some c → ColumnType c = DataTypeString →
     Computed c = false → cell dr i = Some None →
     StringValue Column TableName ColumnName ColumnType Computed DataTypeString
       asString dr i
     = InterfaceConversionPanic) ∧
  (∀ c x s, Column (parent dr) i = Some c → ColumnType c = DataTypeString →
     Computed c = false → cell dr i = Some (Some x) → asString x = Some s →
     StringValue Column TableName ColumnName ColumnType Computed DataTypeString
       asString dr i
     = TypedReturn s None).
Proof.
  intros Ht. split_and!.
  - intros Hc. unfold StringValue, validateColumnType. rewrite Hc. reflexivity.
  - intros c Hc Hty. unfold StringValue, validateColumnType. rewrite Hc.
    destruct (Z.gtb_spec DataTypeString (-1)); [|lia].
    destruct (Z.eqb_spec (ColumnType c) DataTypeString); [contradiction|].
    reflexivity.
  - intros c Hc Hty Hcomp. unfold StringValue.
    rewrite validate_read by (right; eauto). rewrite Hc, Hcomp. reflexivity.
  - intros c Hc Hty Hcomp Hcell. unfold StringValue.
    rewrite validate_read by (right; eauto). rewrite Hc, Hcomp, Hcell. reflexivity.
  - intros c x s Hc Hty Hcomp Hcell Hs. unfold StringValue.
    rewrite validate_read by (right; eauto). rewrite Hc, Hcomp, Hcell. cbn.
    rewrite Hs. reflexivity.
Qed.
End DataRow.

Lemma newDataRow_reads_nil_witness :
  Value RowSamples.columnAt fst (λ c, c.2.1.1) (λ c, c.2.1.2) (λ c, c.2.2)
    (newDataRow (V := string) (λ t, length t.2) RowSamples.table) 1
  = Return None None.
Proof.
  apply (newDataRow_reads_nil (V := string) RowSamples.columnAt fst (λ c, c.2.1.1)
           (λ c, c.2.1.2) (λ c, c.2.2) (λ t, length t.2) RowSamples.table 1).
  intros j c Hc. unfold RowSamples.columnAt in Hc.
  destruct (Z.leb_spec 0 j); [|discriminate].
  destruct (RowSamples.table.2 !! Z.to_nat j) eqn:E; [|discriminate].
  apply lookup_lt_Some in E. cbn in *. lia.
Defined.

Lemma SetValue_Value_round_trip_witness :
  ∃ dr', SetValue RowSamples.columnAt fst (λ c, c.2.1.1) (λ c, c.2.1.2) (λ c, c.2.2)
           RowSamples.row 0 (Some "7"%string) = Return dr' None ∧
         Value RowSamples.columnAt fst (λ c, c.2.1.1) (λ c, c.2.1.2) (λ c, c.2.2)
           dr' 0 = Return (Some "7"%string) None.
Proof.
  destruct (SetValue_Value_round_trip RowSamples.columnAt fst (λ c, c.2.1.1)
              (λ c, c.2.1.2) (λ c, c.2.2) RowSamples.row 0
              (0, ("ID"%string, 7, false)) (Some "7"%string))
    as (dr' & E1 & E2 & _); [reflexivity|reflexivity|cbn; lia|].
  exists dr'. split; assumption.
Defined.

Lemma SetValueByName_ValueByName_witness :
  ∃ dr', SetValueByName RowSamples.columnAt fst (λ c, c.2.1.1) (λ c, c.2.1.2)
           (λ c, c.2.2) RowSamples.columnNamed fst RowSamples.row "Name"
           (Some "breaker"%string) = Return dr' None ∧
         ValueByName fst RowSamples.columnNamed fst dr' "Name"
           = Return (Some "breaker"%string) None.
Proof.
  destruct (SetValueByName_ValueByName RowSamples.columnAt fst (λ c, c.2.1.1)
              (λ c, c.2.1.2) (λ c, c.2.2) RowSamples.columnNamed fst RowSamples.row
              "Name" (1, ("Name"%string, 0, false)) (Some "breaker"%string))
    as ((dr' & E1 & E2) & _); [reflexivity|reflexivity|reflexivity|cbn; lia|].
  exists dr'. split; assumption.
Defined.

Lemma StringValue_outcomes_witness :
  StringValue RowSamples.columnAt fst (λ c, c.2.1.1) (λ c, c.2.1.2) (λ c, c.2.2) 0 Some
    RowSamples.row 1 = TypedReturn "relay"%string None ∧
  StringValue RowSamples.columnAt fst (λ c, c.2.1.1) (λ c, c.2.1.2) (λ c, c.2.2) 0 Some
    RowSamples.row 2 = InterfaceConversionPanic.
Proof.
  destruct (StringValue_outcomes RowSamples.columnAt fst (λ c, c.2.1.1)
              (λ c, c.2.1.2) (λ c, c.2.2) 0 Some RowSamples.row 1)
    as (_ & _ & _ & _ & H1); [lia|].
  destruct (StringValue_outcomes RowSamples.columnAt fst (λ c, c.2.1.1)
              (λ c, c.2.1.2) (λ c, c.2.2) 0 Some RowSamples.row 2)
    as (_ & _ & H2 & _); [lia|].
  split.
  - apply (H1 (1, ("Name"%string, 0, false)) "relay"%string); reflexivity.
  - apply (H2 (2, ("Label"%string, 0, true))); reflexivity.
Defined.

End DataRowOpsProps.
